(** * PersonaPlex streaming client and voice bridge: a shallow embedding

    The development follows two source files of the skill bundle,
    [scripts/connect.py] (the WebSocket client and its integration hook)
    and [scripts/voice_bridge.py] (the ElevenLabs / PersonaPlex name map).

    Python [str] values are represented by [string], read as the UTF-8
    bytes of the text.  Dictionaries whose iteration order the code relies
    on are association lists in insertion order. *)

From Stdlib Require Import List String Ascii Bool Arith ZArith NArith Lia.
From Stdlib Require QArith.
From Stdlib Require DecimalString.
Import ListNotations.
Open Scope string_scope.

Set Implicit Arguments.
Set Warnings "-register-all".

(* ================================================================== *)
(** ** Python built-ins used by the scripts *)

Module Py.

(** [str.upper] / [str.lower] on the ASCII letters; bytes of other
    characters are left as they are. *)
Definition upper_char (c : ascii) : ascii :=
  let n := nat_of_ascii c in
  if ((97 <=? n) && (n <=? 122))%nat then ascii_of_nat (n - 32) else c.

Definition lower_char (c : ascii) : ascii :=
  let n := nat_of_ascii c in
  if ((65 <=? n) && (n <=? 90))%nat then ascii_of_nat (n + 32) else c.

Fixpoint map_str (f : ascii -> ascii) (s : string) : string :=
  match s with
  | EmptyString => EmptyString
  | String c r => String (f c) (map_str f r)
  end.

Definition upper : string -> string := map_str upper_char.
Definition lower : string -> string := map_str lower_char.

(** Truth value of a [str]: non-empty. *)
Definition truthy (s : string) : bool :=
  match s with EmptyString => false | _ => true end.

(** Truth value of a [float | None]: set and not zero. *)
Definition truthy_float (d : option QArith_base.Q) : bool :=
  match d with
  | None => false
  | Some x => negb (QArith_base.Qeq_bool x (QArith_base.Qmake 0 1))
  end.

(** [sub in s] for two strings: substring test. *)
Fixpoint str_contains (sub s : string) : bool :=
  if String.prefix sub s then true
  else match s with
       | EmptyString => false
       | String _ r => str_contains sub r
       end.

(** A [dict] with [str] keys, in insertion order, keys unique. *)
Definition dict (V : Type) := list (string * V).

Fixpoint dict_get {V} (d : dict V) (k : string) : option V :=
  match d with
  | [] => None
  | (k', v) :: r => if String.eqb k k' then Some v else dict_get r k
  end.

Definition dict_mem {V} (d : dict V) (k : string) : bool :=
  match dict_get d k with Some _ => true | None => false end.

(** [d[k] = v]: an existing key keeps its position, a new key goes last. *)
Fixpoint dict_set {V} (d : dict V) (k : string) (v : V) : dict V :=
  match d with
  | [] => [(k, v)]
  | (k', v') :: r =>
      if String.eqb k k' then (k', v) :: r else (k', v') :: dict_set r k v
  end.

Definition keys {V} (d : dict V) : list string := map fst d.

(** [x in s] for a set literal of strings. *)
Definition set_mem (s : list string) (x : string) : bool :=
  existsb (String.eqb x) s.

End Py.

(* ================================================================== *)
(** ** voice_bridge.py *)

Module VoiceBridge.
Import Py.

Definition ELEVENLABS_TO_PERSONAPLEX : dict string :=
  [ ("rachel", "NATF2"); ("adam", "NATM1"); ("george", "NATM0");
    ("alice", "NATF1"); ("brian", "NATM2"); ("charlie", "NATM3");
    ("daniel", "VARM0");
    ("bella", "NATF3"); ("elli", "NATF0"); ("josh", "VARM1");
    ("arnold", "VARM2"); ("sam", "VARM3"); ("domi", "VARF0");
    ("grace", "VARF1"); ("glinda", "VARF3"); ("serena", "VARF2");
    ("emily", "VARF4"); ("ethan", "VARM4") ].

Record PresetInfo := mkInfo
  { gender : string; category : string; character : string }.

Definition PRESET_INFO : dict PresetInfo :=
  [ ("NATF0", mkInfo "female" "natural" "Clear, professional");
    ("NATF1", mkInfo "female" "natural" "Warm, approachable");
    ("NATF2", mkInfo "female" "natural" "Friendly, engaging");
    ("NATF3", mkInfo "female" "natural" "Calm, measured");
    ("NATM0", mkInfo "male" "natural" "Deep, authoritative");
    ("NATM1", mkInfo "male" "natural" "Smooth, narrative");
    ("NATM2", mkInfo "male" "natural" "Calm, reassuring");
    ("NATM3", mkInfo "male" "natural" "Energetic, clear");
    ("VARF0", mkInfo "female" "variety" "Bright, energetic");
    ("VARF1", mkInfo "female" "variety" "Soft, gentle");
    ("VARF2", mkInfo "female" "variety" "Confident, bold");
    ("VARF3", mkInfo "female" "variety" "Warm, motherly");
    ("VARF4", mkInfo "female" "variety" "Youthful, dynamic");
    ("VARM0", mkInfo "male" "variety" "Rich, baritone");
    ("VARM1", mkInfo "male" "variety" "Light, friendly");
    ("VARM2", mkInfo "male" "variety" "Gruff, textured");
    ("VARM3", mkInfo "male" "variety" "Smooth, refined");
    ("VARM4", mkInfo "male" "variety" "Casual, relaxed") ].

(** [__init__]: the reverse map, filled in the iteration order of
    [ELEVENLABS_TO_PERSONAPLEX]; the first mapping of a preset wins. *)
Definition build_pp_to_el (items : dict string) : dict string :=
  fold_left
    (fun acc '(el_name, pp_name) =>
       if dict_mem acc pp_name then acc else dict_set acc pp_name el_name)
    items [].

Definition _pp_to_el : dict string := build_pp_to_el ELEVENLABS_TO_PERSONAPLEX.

Definition get_personaplex_voice (name : string) : option string :=
  let upper := Py.upper name in
  if dict_mem PRESET_INFO upper then Some upper
  else
    let lower := Py.lower name in
    dict_get ELEVENLABS_TO_PERSONAPLEX lower.

Definition get_elevenlabs_voice (name : string) : option string :=
  let lower := Py.lower name in
  if dict_mem ELEVENLABS_TO_PERSONAPLEX lower then Some lower
  else
    let upper := Py.upper name in
    dict_get _pp_to_el upper.

(** Composition of two look-ups, the second applied to the result of
    the first when there is one. *)
Definition and_then (r : option string) (f : string -> option string) :=
  match r with Some x => f x | None => None end.

End VoiceBridge.

(* ================================================================== *)
(** ** The [json] module: [json.loads] and [json.dumps]

    [connect.py] decodes every inbound text message with [json.loads]
    and encodes its configuration with [json.dumps].  The decoder below
    follows CPython's scanner ([json/scanner.py], [json/decoder.py]) on
    the UTF-8 bytes of the text; [None] stands for [JSONDecodeError].
    Floats are kept as their lexeme.  Not modelled: [RecursionError] on
    very deep nesting and the digit limit on integers. *)

Module Json.
Import Py.

Inductive value : Type :=
| JNull
| JBool (b : bool)
| JInt (z : Z)
| JFloat (lexeme : string)
| JStr (s : string)
| JList (l : list value)
| JDict (d : list (string * value)).

Definition dquote : ascii := "034"%char.
Definition backslash : ascii := "092"%char.

(** Test data is written with single quotes; [dq] turns them into the
    double quotes of JSON. *)
Definition dq : string -> string :=
  map_str (fun c => if Ascii.eqb c "'"%char then dquote else c).

Definition is_ws (c : ascii) : bool :=
  let n := nat_of_ascii c in
  ((n =? 32) || (n =? 9) || (n =? 10) || (n =? 13))%nat.

Fixpoint skip_ws (s : string) : string :=
  match s with
  | String c r => if is_ws c then skip_ws r else s
  | EmptyString => s
  end.

Definition is_digit (c : ascii) : bool :=
  let n := nat_of_ascii c in ((48 <=? n) && (n <=? 57))%nat.

Definition hex_val (c : ascii) : option N :=
  let n := N_of_ascii c in
  if ((48 <=? n) && (n <=? 57))%N then Some (n - 48)%N
  else if ((97 <=? n) && (n <=? 102))%N then Some (n - 87)%N
  else if ((65 <=? n) && (n <=? 70))%N then Some (n - 55)%N
  else None.

Definition hex4 (a b c d : ascii) : option N :=
  match hex_val a, hex_val b, hex_val c, hex_val d with
  | Some x, Some y, Some z, Some w => Some (((x * 16 + y) * 16 + z) * 16 + w)%N
  | _, _, _, _ => None
  end.

Definition byte (n : N) : ascii := ascii_of_N n.

(** UTF-8 bytes of one code point ([chr(cp)] in the representation of
    [str] used here). *)
Definition utf8_encode (cp : N) : string :=
  if (cp <? 128)%N then String (byte cp) EmptyString
  else if (cp <? 2048)%N then
    String (byte (192 + cp / 64)) (String (byte (128 + cp mod 64)) EmptyString)
  else if (cp <? 65536)%N then
    String (byte (224 + cp / 4096))
      (String (byte (128 + (cp / 64) mod 64))
         (String (byte (128 + cp mod 64)) EmptyString))
  else
    String (byte (240 + cp / 262144))
      (String (byte (128 + (cp / 4096) mod 64))
         (String (byte (128 + (cp / 64) mod 64))
            (String (byte (128 + cp mod 64)) EmptyString))).

(** The one-character escapes of [BACKSLASH] in [json/decoder.py]. *)
Definition simple_escape (e : ascii) : option ascii :=
  if Ascii.eqb e dquote then Some dquote
  else if Ascii.eqb e backslash then Some backslash
  else if Ascii.eqb e "/"%char then Some "/"%char
  else if Ascii.eqb e "b"%char then Some "008"%char
  else if Ascii.eqb e "f"%char then Some "012"%char
  else if Ascii.eqb e "n"%char then Some "010"%char
  else if Ascii.eqb e "r"%char then Some "013"%char
  else if Ascii.eqb e "t"%char then Some "009"%char
  else None.

Definition is_high_surrogate (u : N) : bool := ((55296 <=? u) && (u <=? 56319))%N.
Definition is_low_surrogate (u : N) : bool := ((56320 <=? u) && (u <=? 57343))%N.
Definition join_surrogates (hi lo : N) : N :=
  (65536 + ((hi - 55296) * 1024 + (lo - 56320)))%N.

Definition prepend (pre : string) (r : option (string * string))
  : option (string * string) :=
  match r with
  | Some (t, rest) => Some (pre ++ t, rest)
  | None => None
  end.

(** [scanstring] (strict): [s] starts just after the opening quote; the
    result is the decoded contents and the text after the closing quote. *)
Fixpoint scanstring (s : string) : option (string * string) :=
  match s with
  | EmptyString => None
  | String c r =>
      if Ascii.eqb c dquote then Some (EmptyString, r)
      else if Ascii.eqb c backslash then
        match r with
        | EmptyString => None
        | String e r1 =>
            match simple_escape e with
            | Some ch => prepend (String ch EmptyString) (scanstring r1)
            | None =>
                if Ascii.eqb e "u"%char then
                  match r1 with
                  | String h1 (String h2 (String h3 (String h4 r2))) =>
                      match hex4 h1 h2 h3 h4 with
                      | None => None
                      | Some uni =>
                          if is_high_surrogate uni then
                            match r2 with
                            | String b (String u (String g1 (String g2
                                (String g3 (String g4 r3))))) =>
                                if Ascii.eqb b backslash && Ascii.eqb u "u"%char then
                                  match hex4 g1 g2 g3 g4 with
                                  | None => None
                                  | Some uni2 =>
                                      if is_low_surrogate uni2 then
                                        prepend (utf8_encode (join_surrogates uni uni2))
                                                (scanstring r3)
                                      else prepend (utf8_encode uni) (scanstring r2)
                                  end
                                else prepend (utf8_encode uni) (scanstring r2)
                            | _ => prepend (utf8_encode uni) (scanstring r2)
                            end
                          else prepend (utf8_encode uni) (scanstring r2)
                      end
                  | _ => None
                  end
                else None
            end
        end
      else if (nat_of_ascii c <? 32)%nat then None
      else prepend (String c EmptyString) (scanstring r)
  end.

Fixpoint span_digits (s : string) : string * string :=
  match s with
  | String c r =>
      if is_digit c then let '(ds, rest) := span_digits r in (String c ds, rest)
      else (EmptyString, s)
  | EmptyString => (EmptyString, s)
  end.

Fixpoint Z_of_digits (acc : Z) (s : string) : Z :=
  match s with
  | EmptyString => acc
  | String c r => Z_of_digits (10 * acc + Z.of_nat (nat_of_ascii c - 48)) r
  end.

Definition is_empty (s : string) : bool :=
  match s with EmptyString => true | _ => false end.

(** [NUMBER_RE]: an optional minus sign, then 0 or a non-zero digit
    followed by digits; then, optionally, a dot and one or more digits;
    then, optionally, e or E, an optional sign and one or more digits.
    An [int] when neither fraction nor exponent matched, a [float]
    otherwise. *)
Definition match_number (s : string) : option (value * string) :=
  let '(neg, s1) :=
    match s with
    | String c r => if Ascii.eqb c "-"%char then (true, r) else (false, s)
    | EmptyString => (false, s)
    end in
  match s1 with
  | EmptyString => None
  | String d r =>
      if is_digit d then
        let '(ip, s2) :=
          if Ascii.eqb d "0"%char then ("0", r)
          else let '(ds, r') := span_digits r in (String d ds, r') in
        let '(frac, s3) :=
          match s2 with
          | String p r2 =>
              if Ascii.eqb p "."%char then
                let '(fd, r3) := span_digits r2 in
                if is_empty fd then (EmptyString, s2) else (String p fd, r3)
              else (EmptyString, s2)
          | EmptyString => (EmptyString, s2)
          end in
        let '(ex, s4) :=
          match s3 with
          | String e r3 =>
              if Ascii.eqb e "e"%char || Ascii.eqb e "E"%char then
                let '(sg, r4) :=
                  match r3 with
                  | String g r' =>
                      if Ascii.eqb g "+"%char || Ascii.eqb g "-"%char
                      then (String g EmptyString, r') else (EmptyString, r3)
                  | EmptyString => (EmptyString, r3)
                  end in
                let '(ed, r5) := span_digits r4 in
                if is_empty ed then (EmptyString, s3) else (String e (sg ++ ed), r5)
              else (EmptyString, s3)
          | EmptyString => (EmptyString, s3)
          end in
        if is_empty frac && is_empty ex then
          Some (JInt (if neg then - Z_of_digits 0 ip else Z_of_digits 0 ip)%Z, s4)
        else
          Some (JFloat ((if neg then "-" else EmptyString) ++ ip ++ frac ++ ex), s4)
      else None
  end.

Fixpoint drop (n : nat) (s : string) : string :=
  match n, s with
  | S n', String _ r => drop n' r
  | _, _ => s
  end.

(** A literal [lit] at the head of [s]. *)
Definition literal (lit : string) (v : value) (s : string)
  : option (value * string) :=
  if String.prefix lit s then Some (v, drop (String.length lit) s) else None.

Definition or_else {A} (x y : option A) : option A :=
  match x with Some _ => x | None => y end.

(** [scan_once], [JSONArray] and [JSONObject].  Every recursive call
    is made after at least one character was consumed, so a budget of
    one more than the length of the text is never exhausted. *)
Fixpoint scan_once (fuel : nat) (s : string) {struct fuel}
  : option (value * string) :=
  match fuel with
  | O => None
  | S f =>
      match s with
      | EmptyString => None
      | String c r =>
          if Ascii.eqb c dquote then
            match scanstring r with
            | Some (t, rest) => Some (JStr t, rest)
            | None => None
            end
          else if Ascii.eqb c "{"%char then
            match skip_ws r with
            | String c1 r1 as s1 =>
                if Ascii.eqb c1 "}"%char then Some (JDict [], r1)
                else match object_items f s1 [] with
                     | Some (d, rest) => Some (JDict d, rest)
                     | None => None
                     end
            | EmptyString => None
            end
          else if Ascii.eqb c "["%char then
            match skip_ws r with
            | String c1 r1 as s1 =>
                if Ascii.eqb c1 "]"%char then Some (JList [], r1)
                else match array_items f s1 with
                     | Some (l, rest) => Some (JList l, rest)
                     | None => None
                     end
            | EmptyString => None
            end
          else
            or_else (literal "null" JNull s)
           (or_else (literal "true" (JBool true) s)
           (or_else (literal "false" (JBool false) s)
           (or_else (match_number s)
           (or_else (literal "NaN" (JFloat "NaN") s)
           (or_else (literal "Infinity" (JFloat "Infinity") s)
                    (literal "-Infinity" (JFloat "-Infinity") s))))))
      end
  end
with array_items (fuel : nat) (s : string) {struct fuel}
  : option (list value * string) :=
  match fuel with
  | O => None
  | S f =>
      match scan_once f s with
      | None => None
      | Some (v, r) =>
          match skip_ws r with
          | String c r1 =>
              if Ascii.eqb c "]"%char then Some ([v], r1)
              else if Ascii.eqb c ","%char then
                match array_items f (skip_ws r1) with
                | Some (l, rest) => Some (v :: l, rest)
                | None => None
                end
              else None
          | EmptyString => None
          end
      end
  end
with object_items (fuel : nat) (s : string) (acc : list (string * value))
       {struct fuel} : option (list (string * value) * string) :=
  match fuel with
  | O => None
  | S f =>
      match s with
      | EmptyString => None
      | String q r =>
          if Ascii.eqb q dquote then
            match scanstring r with
            | None => None
            | Some (key, r1) =>
                match skip_ws r1 with
                | String c r2 =>
                    if Ascii.eqb c ":"%char then
                      match scan_once f (skip_ws r2) with
                      | None => None
                      | Some (v, r3) =>
                          let acc' := dict_set acc key v in
                          match skip_ws r3 with
                          | String c3 r4 =>
                              if Ascii.eqb c3 "}"%char then Some (acc', r4)
                              else if Ascii.eqb c3 ","%char then
                                object_items f (skip_ws r4) acc'
                              else None
                          | EmptyString => None
                          end
                      end
                    else None
                | EmptyString => None
                end
            end
          else None
      end
  end.

(** [json.loads(s)]: one value, surrounded by optional white space,
    and nothing else. *)
Definition loads (s : string) : option value :=
  match scan_once (S (String.length s)) (skip_ws s) with
  | Some (v, rest) => if is_empty (skip_ws rest) then Some v else None
  | None => None
  end.

(** [ESCAPE_ASCII] / [py_encode_basestring_ascii]: printable ASCII
    except the quote and the backslash is copied; everything else is
    escaped, code points above U+FFFF as a surrogate pair. *)
Definition hex_digit (n : N) : ascii :=
  if (n <? 10)%N then ascii_of_N (48 + n) else ascii_of_N (87 + n).

Definition u_escape (cp : N) : string :=
  String backslash (String "u"%char
    (String (hex_digit ((cp / 4096) mod 16))
      (String (hex_digit ((cp / 256) mod 16))
        (String (hex_digit ((cp / 16) mod 16))
          (String (hex_digit (cp mod 16)) EmptyString))))).

Definition esc2 (c : ascii) : string := String backslash (String c EmptyString).

Definition escape_cp (cp : N) : string :=
  if (cp =? 34)%N then esc2 dquote
  else if (cp =? 92)%N then esc2 backslash
  else if (cp =? 10)%N then esc2 "n"%char
  else if (cp =? 13)%N then esc2 "r"%char
  else if (cp =? 9)%N then esc2 "t"%char
  else if (cp =? 8)%N then esc2 "b"%char
  else if (cp =? 12)%N then esc2 "f"%char
  else if ((32 <=? cp) && (cp <=? 126))%N then String (byte cp) EmptyString
  else if (cp <? 65536)%N then u_escape cp
  else
    let v := (cp - 65536)%N in
    u_escape (55296 + v / 1024) ++ u_escape (56320 + v mod 1024).

Definition cont (b : ascii) : N := (N_of_ascii b mod 64)%N.

(** The escaped body of a string, reading the code points off the
    UTF-8 bytes. *)
Fixpoint encode_body (s : string) : string :=
  match s with
  | EmptyString => EmptyString
  | String b r =>
      let n := N_of_ascii b in
      if (n <? 192)%N then escape_cp n ++ encode_body r
      else if (n <? 224)%N then
        match r with
        | String b2 r2 =>
            escape_cp ((n - 192) * 64 + cont b2) ++ encode_body r2
        | _ => escape_cp n ++ encode_body r
        end
      else if (n <? 240)%N then
        match r with
        | String b2 (String b3 r3) =>
            escape_cp (((n - 224) * 64 + cont b2) * 64 + cont b3)
              ++ encode_body r3
        | _ => escape_cp n ++ encode_body r
        end
      else
        match r with
        | String b2 (String b3 (String b4 r4)) =>
            escape_cp ((((n - 240) * 64 + cont b2) * 64 + cont b3) * 64 + cont b4)
              ++ encode_body r4
        | _ => escape_cp n ++ encode_body r
        end
  end.

Definition encode_str (s : string) : string :=
  String dquote (encode_body s ++ String dquote EmptyString).

Definition encode_item (kv : string * string) : string :=
  encode_str (fst kv) ++ ": " ++ encode_str (snd kv).

(** [json.dumps(d)] for a [dict] from [str] to [str], with the default
    separators. *)
Definition dumps (d : dict string) : string :=
  "{" ++ String.concat ", " (map encode_item d) ++ "}".

(** The decoded form of a [dict] from [str] to [str]. *)
Definition of_dict (d : dict string) : value :=
  JDict (map (fun kv => (fst kv, JStr (snd kv))) d).

(** Exceptions the client code can meet.  [TimeoutError] stands for
    an instance of [asyncio.TimeoutError], the class the [except]
    clauses of the client name; [TransportError] for any other
    exception of the connection. *)
Inductive exn : Type :=
| TypeError
| KeyError
| TransportError (msg : string)
| TimeoutError (msg : string).

Definition str_of_exn (e : exn) : string :=
  match e with
  | TypeError => "TypeError"
  | KeyError => "KeyError"
  | TransportError m => m
  | TimeoutError m => m
  end.

(** [isinstance(e, asyncio.TimeoutError)] *)
Definition is_timeout (e : exn) : bool :=
  match e with TimeoutError _ => true | _ => false end.

(** [needle in data] on a decoded value: key test on a [dict], element
    test on a [list], substring test on a [str]; any other value is not
    a container and the test raises [TypeError]. *)
Definition contains (needle : string) (data : value) : exn + bool :=
  match data with
  | JDict d => inr (dict_mem d needle)
  | JList l =>
      inr (existsb (fun v => match v with
                             | JStr s => String.eqb s needle
                             | _ => false
                             end) l)
  | JStr s => inr (str_contains needle s)
  | _ => inl TypeError
  end.

(** [data[key]] with a [str] key: defined on a [dict] only. *)
Definition getitem (data : value) (key : string) : exn + value :=
  match data with
  | JDict d =>
      match dict_get d key with
      | Some v => inr v
      | None => inl KeyError
      end
  | _ => inl TypeError
  end.

End Json.

(* ================================================================== *)
(** ** asyncio.Queue, as far as [send_audio] uses it *)

Module AsyncQueue.
Local Open Scope list_scope.

Section Queue.
Variable A : Type.

(** [maxsize <= 0] means the queue size is infinite. *)
Record Queue := mkQueue { maxsize : Z; _queue : list A }.

(** [asyncio.Queue(maxsize)]; [maxsize] defaults to 0. *)
Definition new (maxsize : Z) : Queue := mkQueue maxsize [].

Definition qsize (q : Queue) : nat := List.length (_queue q).

Definition empty (q : Queue) : bool :=
  match _queue q with [] => true | _ => false end.

Definition full (q : Queue) : bool :=
  if (maxsize q <=? 0)%Z then false
  else (maxsize q <=? Z.of_nat (qsize q))%Z.

(** [put_nowait]: [None] stands for [QueueFull]. *)
Definition put_nowait (q : Queue) (item : A) : option Queue :=
  if full q then None
  else Some (mkQueue (maxsize q) (_queue q ++ [item])).

(** [get_nowait]: [None] stands for [QueueEmpty]. *)
Definition get_nowait (q : Queue) : option (A * Queue) :=
  match _queue q with
  | [] => None
  | x :: r => Some (x, mkQueue (maxsize q) r)
  end.

(** A sequence of producer and consumer calls on one queue.  A call
    that raises leaves the queue as it was. *)
Inductive op := Push (item : A) | Pop.

Definition apply_op (q : Queue) (o : op) : Queue :=
  match o with
  | Push x => match put_nowait q x with Some q' => q' | None => q end
  | Pop => match get_nowait q with Some (_, q') => q' | None => q end
  end.

Definition run_ops (q : Queue) (ops : list op) : Queue :=
  fold_left apply_op ops q.

(** The items returned by [n] successive [get_nowait] calls. *)
Fixpoint drain (n : nat) (q : Queue) : list A :=
  match n with
  | O => []
  | S n' =>
      match get_nowait q with
      | Some (x, q') => x :: drain n' q'
      | None => []
      end
  end.
End Queue.

End AsyncQueue.

(* ================================================================== *)
(** ** connect.py

    The client is a single-threaded [asyncio] program: between two
    [await]s its code runs without interruption.  A session is therefore
    modelled as a state machine driven by the events the event loop can
    deliver (a connection attempt finishing, a captured block, a pump
    waking up, a signal, the duration limit); [step] is what the code
    does, uninterrupted, when the event arrives.

    The audio devices are taken to open and work ([sounddevice] is
    importable and the two raw streams start); the informational log
    lines about the devices are left out of [log]. *)

Module Connect.
Import Py Json.
Local Open Scope list_scope.

Definition bytes := list Byte.byte.

Definition VOICE_PRESETS : list string :=
  [ "NATF0"; "NATF1"; "NATF2"; "NATF3";
    "NATM0"; "NATM1"; "NATM2"; "NATM3";
    "VARF0"; "VARF1"; "VARF2"; "VARF3"; "VARF4";
    "VARM0"; "VARM1"; "VARM2"; "VARM3"; "VARM4" ]%string.

Definition SAMPLE_RATE : Z := 24000.
Definition CHANNELS : Z := 1.
Definition CHUNK_DURATION_MS : Z := 80.
(** [int(SAMPLE_RATE * CHUNK_DURATION_MS / 1000)]; the division is
    exact. *)
Definition CHUNK_SIZE : Z := Z.quot (SAMPLE_RATE * CHUNK_DURATION_MS) 1000.
(** Bytes in one block handed to [audio_callback]: [blocksize] frames
    of [CHANNELS] samples of dtype [int16]. *)
Definition BLOCK_BYTES : Z := CHUNK_SIZE * CHANNELS * 2.

(** A WebSocket message: a text frame or a binary frame. *)
Inductive message : Type :=
| Text (s : string)
| Binary (b : bytes).

Definition is_text (m : message) : bool :=
  match m with Text _ => true | Binary _ => false end.
Definition is_binary (m : message) : bool :=
  match m with Text _ => false | Binary _ => true end.

(** Calls of [logger], by call site. *)
Inductive log_record : Type :=
| WarnUnknownVoice (voice : string)
| InfoConnecting
| InfoConnected
| InfoSentConfig
| InfoAgent (v : value)            (* info  "[Agent]: {v}" *)
| ErrorServer (v : value)          (* error "Server error: {v}" *)
| DebugServerMessage (v : value)   (* debug "Server message: {v}" *)
| ErrorSending (e : exn)           (* error "Error sending audio: {e}" *)
| ErrorReceiving (e : exn)         (* error "Error receiving audio: {e}" *)
| InfoShuttingDown.

Inductive status : Type :=
| connected | completed | disconnected | timeout | error.

(** The [dict] returned by [clawdbot_connect]. *)
Record result := mkResult
  { r_status : status;
    r_server : string;
    r_voice : string;
    r_text_prompt : string;
    r_error : option string }.

(** Where [send_audio] is suspended. *)
Inductive up_state : Type :=
| UpWaiting                 (* in [wait_for(audio_queue.get(), 1.0)] *)
| UpSending (audio_data : bytes)   (* in [_ws.send(audio_data)] *)
| UpExited.                 (* not running: not started, or ended *)

(** Where [receive_audio] is suspended. *)
Inductive down_state : Type :=
| DownWaiting               (* in [wait_for(_ws.recv(), 1.0)] *)
| DownExited.               (* not running: not started, or ended *)

(** Where [clawdbot_connect] is suspended. *)
Inductive phase : Type :=
| Connecting                (* [connect]: in [websockets.connect] *)
| Configuring               (* [connect]: in [_ws.send(json.dumps(config))] *)
| Streaming                 (* [run]: in [asyncio.gather] *)
| Stopping                  (* [run], finally: [stop] in [_ws.close()] *)
| Returned (r : result).

Record session := mkSession
  { (* arguments of clawdbot_connect *)
    server_url : string;
    arg_voice : string;
    duration_seconds : option QArith_base.Q;
    (* the PersonaPlexClient object *)
    voice : string;
    text_prompt : string;
    running : bool;
    ws : bool;                      (* [_ws is not None] *)
    (* the connection *)
    wire : list message;            (* messages sent, in order *)
    closes : nat;                   (* calls of [_ws.close()] *)
    (* the two pumps *)
    audio_queue : AsyncQueue.Queue bytes;
    up : up_state;
    down : down_state;
    played : list bytes;            (* writes to the output stream *)
    (* the event loop *)
    handlers : bool;                (* signal handlers installed *)
    sig_stop : bool;                (* a [stop] task is in [_ws.close()] *)
    log : list log_record;
    ph : phase }.

Definition set_running (b : bool) (s : session) : session :=
  mkSession (server_url s) (arg_voice s) (duration_seconds s) (voice s)
    (text_prompt s) b (ws s) (wire s) (closes s) (audio_queue s) (up s)
    (down s) (played s) (handlers s) (sig_stop s) (log s) (ph s).
Definition set_ws (b : bool) (s : session) : session :=
  mkSession (server_url s) (arg_voice s) (duration_seconds s) (voice s)
    (text_prompt s) (running s) b (wire s) (closes s) (audio_queue s) (up s)
    (down s) (played s) (handlers s) (sig_stop s) (log s) (ph s).
Definition set_wire (w : list message) (s : session) : session :=
  mkSession (server_url s) (arg_voice s) (duration_seconds s) (voice s)
    (text_prompt s) (running s) (ws s) w (closes s) (audio_queue s) (up s)
    (down s) (played s) (handlers s) (sig_stop s) (log s) (ph s).
Definition set_closes (n : nat) (s : session) : session :=
  mkSession (server_url s) (arg_voice s) (duration_seconds s) (voice s)
    (text_prompt s) (running s) (ws s) (wire s) n (audio_queue s) (up s)
    (down s) (played s) (handlers s) (sig_stop s) (log s) (ph s).
Definition set_audio_queue (q : AsyncQueue.Queue bytes) (s : session) : session :=
  mkSession (server_url s) (arg_voice s) (duration_seconds s) (voice s)
    (text_prompt s) (running s) (ws s) (wire s) (closes s) q (up s)
    (down s) (played s) (handlers s) (sig_stop s) (log s) (ph s).
Definition set_up (u : up_state) (s : session) : session :=
  mkSession (server_url s) (arg_voice s) (duration_seconds s) (voice s)
    (text_prompt s) (running s) (ws s) (wire s) (closes s) (audio_queue s) u
    (down s) (played s) (handlers s) (sig_stop s) (log s) (ph s).
Definition set_down (d : down_state) (s : session) : session :=
  mkSession (server_url s) (arg_voice s) (duration_seconds s) (voice s)
    (text_prompt s) (running s) (ws s) (wire s) (closes s) (audio_queue s) (up s)
    d (played s) (handlers s) (sig_stop s) (log s) (ph s).
Definition set_played (p : list bytes) (s : session) : session :=
  mkSession (server_url s) (arg_voice s) (duration_seconds s) (voice s)
    (text_prompt s) (running s) (ws s) (wire s) (closes s) (audio_queue s) (up s)
    (down s) p (handlers s) (sig_stop s) (log s) (ph s).
Definition set_handlers (b : bool) (s : session) : session :=
  mkSession (server_url s) (arg_voice s) (duration_seconds s) (voice s)
    (text_prompt s) (running s) (ws s) (wire s) (closes s) (audio_queue s) (up s)
    (down s) (played s) b (sig_stop s) (log s) (ph s).
Definition set_sig_stop (b : bool) (s : session) : session :=
  mkSession (server_url s) (arg_voice s) (duration_seconds s) (voice s)
    (text_prompt s) (running s) (ws s) (wire s) (closes s) (audio_queue s) (up s)
    (down s) (played s) (handlers s) b (log s) (ph s).
Definition add_log (r : log_record) (s : session) : session :=
  mkSession (server_url s) (arg_voice s) (duration_seconds s) (voice s)
    (text_prompt s) (running s) (ws s) (wire s) (closes s) (audio_queue s) (up s)
    (down s) (played s) (handlers s) (sig_stop s) (log s ++ [r]) (ph s).
Definition set_ph (p : phase) (s : session) : session :=
  mkSession (server_url s) (arg_voice s) (duration_seconds s) (voice s)
    (text_prompt s) (running s) (ws s) (wire s) (closes s) (audio_queue s) (up s)
    (down s) (played s) (handlers s) (sig_stop s) (log s) p.

(** *** PersonaPlexClient.connect: the configuration message *)

Definition config (voice text_prompt : string) : dict string :=
  let config := [("voice_prompt", voice ++ ".pt")%string] in
  if truthy text_prompt then dict_set config "text_prompt" text_prompt
  else config.

Definition config_message (s : session) : message :=
  Text (dumps (config (voice s) (text_prompt s))).

(** *** clawdbot_connect: the client object and the result *)

(** [if duration_seconds:] *)
Definition limited (s : session) : bool :=
  truthy_float (duration_seconds s).

(** A [str] is held as its UTF-8 bytes, and [len] and slices count
    characters (code points): every byte but the continuation bytes
    [10xxxxxx] starts one. *)
Definition is_continuation (c : ascii) : bool :=
  let n := nat_of_ascii c in ((128 <=? n) && (n <? 192))%nat.

(** [len(s)] *)
Fixpoint cp_length (s : string) : nat :=
  match s with
  | EmptyString => 0
  | String c r => (if is_continuation c then 0 else 1) + cp_length r
  end.

(** [s[:n]] *)
Fixpoint cp_take (n : nat) (s : string) : string :=
  match s with
  | EmptyString => EmptyString
  | String c r =>
      if is_continuation c then String c (cp_take n r)
      else match n with
           | O => EmptyString
           | S n' => String c (cp_take n' r)
           end
  end.

(** [text_prompt[:100] + "..." if len(text_prompt) > 100 else text_prompt] *)
Definition shown_prompt (text_prompt : string) : string :=
  if (100 <? cp_length text_prompt)%nat
  then (cp_take 100 text_prompt ++ "...")%string
  else text_prompt.

Definition make_result (s : session) (st : status) (err : option string) : result :=
  mkResult st (server_url s) (arg_voice s) (shown_prompt (text_prompt s)) err.

(** [PersonaPlexClient.__init__] inside [clawdbot_connect], up to the
    first suspension, in [websockets.connect]. *)
Definition start (server_url voice text_prompt : string)
           (duration_seconds : option QArith_base.Q) : session :=
  let v := Py.upper voice in
  mkSession server_url voice duration_seconds v text_prompt
    false false [] 0 (AsyncQueue.new bytes 0) UpExited DownExited []
    false false
    ((if set_mem VOICE_PRESETS v then [] else [WarnUnknownVoice v])
       ++ [InfoConnecting])
    Connecting.

(** *** PersonaPlexClient.stop *)

(** [stop] up to its suspension in [_ws.close()]; the flag tells
    whether it is suspended there. *)
Definition stop_begin (s : session) : session * bool :=
  if negb (running s) then (s, false)
  else
    let s1 := add_log InfoShuttingDown (set_running false s) in
    if ws s1 then (set_closes (S (closes s1)) s1, true)
    else (s1, false).

(** [stop] after [_ws.close()] has returned. *)
Definition stop_finish (s : session) : session := set_ws false s.

(** [stop] run to its end without interruption. *)
Definition stop (s : session) : session :=
  let '(s1, awaiting) := stop_begin s in
  if awaiting then stop_finish s1 else s1.

(** *** PersonaPlexClient.receive_audio: one text message *)

(** The body of the [elif isinstance(message, str)] branch: the record
    it logs, or the exception that leaves the inner [try]. *)
Definition handle_text (message : string) : exn + log_record :=
  match loads message with
  | None => inr (InfoAgent (JStr message))
  | Some data =>
      match contains "text" data with
      | inl e => inl e
      | inr true =>
          match getitem data "text" with
          | inl e => inl e
          | inr v => inr (InfoAgent v)
          end
      | inr false =>
          match contains "error" data with
          | inl e => inl e
          | inr true =>
              match getitem data "error" with
              | inl e => inl e
              | inr v => inr (ErrorServer v)
              end
          | inr false => inr (DebugServerMessage data)
          end
      end
  end.

(** What [wait_for(self._ws.recv(), timeout=1.0)] produces. *)
Inductive recv_outcome : Type :=
| RecvTimeout
| RecvBytes (b : bytes)
| RecvStr (s : string)
| RecvRaise (e : exn).

(** The loop test [while self.running] of [receive_audio]; leaving the
    loop ends the coroutine. *)
Definition down_loop (s : session) : session :=
  if running s then set_down DownWaiting s else set_down DownExited s.

(** [except Exception as e] of [receive_audio]. *)
Definition down_except (e : exn) (s : session) : session :=
  set_down DownExited (if running s then add_log (ErrorReceiving e) s else s).

(** An exception leaves the [try] of [receive_audio]:
    [except asyncio.TimeoutError: continue] comes first. *)
Definition down_raise (e : exn) (s : session) : session :=
  if is_timeout e then down_loop s else down_except e s.

(** One iteration of the loop of [receive_audio], from the return of
    [recv] to the next suspension. *)
Definition receive_iter (o : recv_outcome) (s : session) : session :=
  match o with
  | RecvTimeout => down_loop s
  | RecvBytes b => down_loop (set_played (played s ++ [b]) s)
  | RecvStr m =>
      match handle_text m with
      | inr r => down_loop (add_log r s)
      | inl e => down_raise e s
      end
  | RecvRaise e => down_raise e s
  end.

(** *** PersonaPlexClient.send_audio *)

Definition up_loop (s : session) : session :=
  if running s then set_up UpWaiting s else set_up UpExited s.

(** [audio_callback], once the event loop runs the scheduled
    [put_nowait]. *)
Definition audio_callback (indata : bytes) (s : session) : session :=
  match AsyncQueue.put_nowait (audio_queue s) indata with
  | Some q => set_audio_queue q s
  | None => s
  end.

(** [wait_for(audio_queue.get(), timeout=1.0)] returns a block or
    times out on an empty queue; a block goes to [_ws.send] when the
    guard [self._ws and self.running] holds. *)
Definition send_iter (s : session) : session :=
  match AsyncQueue.get_nowait (audio_queue s) with
  | None => up_loop s
  | Some (audio_data, q) =>
      let s1 := set_audio_queue q s in
      if ws s1 && running s1 then set_up (UpSending audio_data) s1
      else up_loop s1
  end.

(** [_ws.send(audio_data)] returns or raises;
    [except asyncio.TimeoutError: continue] comes before
    [except Exception as e]. *)
Definition send_done (audio_data : bytes) (r : option exn) (s : session) : session :=
  match r with
  | None => up_loop (set_wire (wire s ++ [Binary audio_data]) s)
  | Some e =>
      if is_timeout e then up_loop s
      else set_up UpExited (if running s then add_log (ErrorSending e) s else s)
  end.

(** *** PersonaPlexClient.run and clawdbot_connect *)

(** The status written after [client.run()] returned normally. *)
Definition normal_status (s : session) : status :=
  if limited s then completed else disconnected.

Definition return_normal (s : session) : session :=
  set_ph (Returned (make_result s (normal_status s) None)) s.

(** [finally: await self.stop()] of [run], entered when [gather] has
    returned. *)
Definition run_finally (s : session) : session :=
  let '(s1, awaiting) := stop_begin s in
  if awaiting then set_ph Stopping s1 else return_normal s1.

(** [asyncio.gather] returns once both pumps have ended.  With the
    streams open, every exception inside a pump is caught by the pump
    itself, so [gather] does not raise. *)
Definition settle (s : session) : session :=
  match ph s, up s, down s with
  | Streaming, UpExited, DownExited => run_finally s
  | _, _, _ => s
  end.

(** The events of a session. *)
Inductive event : Type :=
| EvConnect (r : option exn)      (* [websockets.connect] returns / raises *)
| EvConfigSent (r : option exn)   (* the first [_ws.send] returns / raises *)
| EvCapture (indata : bytes)      (* the input stream delivers a block *)
| EvQueueGet                      (* the wait on [audio_queue.get()] ends *)
| EvSendDone (r : option exn)     (* [_ws.send(audio_data)] returns / raises *)
| EvRecv (o : recv_outcome)       (* the wait on [_ws.recv()] ends *)
| EvSignal                        (* SIGINT or SIGTERM, once handled by [run] *)
| EvCloseDone                     (* [_ws.close()] returns *)
| EvDeadline.                     (* [wait_for(client.run(), ...)] expires *)

(** [except asyncio.TimeoutError] of [clawdbot_connect]. *)
Definition return_timeout (s : session) : session :=
  let s1 := stop s in
  set_ph (Returned (make_result s1 timeout None)) s1.

(** [except Exception as e] of [clawdbot_connect]. *)
Definition return_error (e : exn) (s : session) : session :=
  set_ph (Returned (make_result s error (Some (str_of_exn e)))) s.

(** An exception leaves [client.run()]: [except asyncio.TimeoutError]
    is tested before [except Exception]. *)
Definition return_raised (e : exn) (s : session) : session :=
  if is_timeout e then return_timeout s else return_error e s.

(** The duration limit expires: the code suspended in [run] is
    cancelled, its [finally] clauses run, and [wait_for] raises
    [TimeoutError]. *)
Definition on_deadline (s : session) : session :=
  match ph s with
  | Connecting | Configuring => return_timeout s
  | Streaming =>
      (* both pumps are cancelled, then [finally: await self.stop()] *)
      let s1 := set_down DownExited (set_up UpExited s) in
      return_timeout (stop s1)
  | Stopping =>
      (* [stop] is cancelled in [_ws.close()]; [_ws] is not reset *)
      return_timeout s
  | Returned _ => s
  end.

Definition step (s : session) (e : event) : session :=
  match e with
  | EvConnect r =>
      match ph s with
      | Connecting =>
          match r with
          | Some ex => return_raised ex s
          | None =>
              set_ph Configuring
                (add_log InfoConnected (set_running true (set_ws true s)))
          end
      | _ => s
      end
  | EvConfigSent r =>
      match ph s with
      | Configuring =>
          match r with
          | Some ex => return_raised ex s
          | None =>
              set_ph Streaming
                (set_down DownWaiting
                   (set_up UpWaiting
                      (set_handlers true
                         (add_log InfoSentConfig
                            (set_wire (wire s ++ [config_message s]) s)))))
          end
      | _ => s
      end
  | EvCapture indata =>
      match ph s, up s with
      | Streaming, UpWaiting | Streaming, UpSending _ => audio_callback indata s
      | _, _ => s
      end
  | EvQueueGet =>
      match ph s, up s with
      | Streaming, UpWaiting => settle (send_iter s)
      | _, _ => s
      end
  | EvSendDone r =>
      match ph s, up s with
      | Streaming, UpSending audio_data => settle (send_done audio_data r s)
      | _, _ => s
      end
  | EvRecv o =>
      match ph s, down s with
      | Streaming, DownWaiting => settle (receive_iter o s)
      | _, _ => s
      end
  | EvSignal =>
      if handlers s then
        let '(s1, awaiting) := stop_begin s in
        if awaiting then set_sig_stop true s1 else s1
      else s
  | EvCloseDone =>
      match ph s with
      | Stopping => return_normal (stop_finish s)
      | _ => if sig_stop s then set_sig_stop false (stop_finish s) else s
      end
  | EvDeadline =>
      if limited s then on_deadline s else s
  end.

(** A session under a schedule of events. *)
Definition exec (s : session) (evs : list event) : session :=
  fold_left step evs s.

Definition clawdbot_connect (server_url voice text_prompt : string)
           (duration_seconds : option QArith_base.Q) (evs : list event) : session :=
  exec (start server_url voice text_prompt duration_seconds) evs.

(** The value returned, once there is one. *)
Definition returned (s : session) : option result :=
  match ph s with Returned r => Some r | _ => None end.

End Connect.

(* ================================================================== *)
(** ** Predicates used in the statements *)

Module Props.
Import Py Json Connect.
Local Open Scope list_scope.

Definition is_returned (p : phase) : bool :=
  match p with Returned _ => true | _ => false end.

(** What holds of every session reached from [start]. *)
Record Inv (s : session) : Prop := mkInv
  { inv_closes : closes s <= 1;
    inv_running : running s = true -> closes s = 0 /\ ws s = true;
    inv_stopped : handlers s = true -> running s = false -> closes s = 1;
    inv_connecting :
      ph s = Connecting ->
      running s = false /\ handlers s = false /\ closes s = 0 /\
      ws s = false;
    inv_configuring :
      ph s = Configuring -> running s = true /\ handlers s = false;
    inv_streaming : ph s = Streaming -> handlers s = true;
    inv_stopping : ph s = Stopping -> handlers s = true /\ running s = false;
    inv_returned :
      is_returned (ph s) = true -> handlers s = true -> running s = false;
    inv_sig_stop : sig_stop s = true -> handlers s = true /\ running s = false;
    inv_queue : AsyncQueue.maxsize (audio_queue s) = 0%Z }.

(** A schedule in which nobody asks the session to stop: no signal
    and no expiry of the duration limit. *)
Definition stop_request (e : event) : bool :=
  match e with EvSignal | EvDeadline => true | _ => false end.

Definition no_stop_request (evs : list event) : Prop :=
  forallb (fun e => negb (stop_request e)) evs = true.

(** All bytes of the text are ASCII. *)
Fixpoint is_ascii (s : string) : bool :=
  match s with
  | EmptyString => true
  | String c r => (N_of_ascii c <? 128)%N && is_ascii r
  end.

Definition opt_eqb (a b : option string) : bool :=
  match a, b with
  | Some x, Some y => String.eqb x y
  | None, None => true
  | _, _ => false
  end.

(** Test blocks [b_0 .. b_(n-1)], one byte each and all distinct for
    [n <= 256]. *)
Definition block (i : nat) : bytes := [byte_of_ascii (ascii_of_nat i)].
Definition blocks (n : nat) : list bytes := map block (seq 0 n).

(** The wire holds nothing before the configuration was sent, and the
    configuration followed by binary frames afterwards. *)
Definition wire_shape (s : session) : Prop :=
  if handlers s
  then exists frames, wire s = config_message s :: map Binary frames
  else wire s = [].

(** Without a stop request, a session that reached [Streaming] can
    only return through the normal exit of [run]. *)
Definition normal_exit (s : session) : Prop :=
  match ph s with
  | Streaming | Stopping => True
  | Returned r => r_status r = normal_status s /\ r_error r = None
  | _ => False
  end.

Definition localhost : string := "wss://localhost:8998/ws".

(** A session that streams: connection open, configuration sent. *)
Definition streaming_session : session :=
  clawdbot_connect localhost "NATF2" EmptyString None [EvConnect None; EvConfigSent None].

Definition closed_by_peer : exn := TransportError "connection closed".

(** A session whose connection drops: the receive fails, the next send
    fails, [run] closes the connection and returns. *)
Definition dropped_connection : list event :=
  [ EvRecv (RecvRaise closed_by_peer);
    EvCapture (block 0); EvQueueGet; EvSendDone (Some closed_by_peer);
    EvCloseDone ].

(** Three signals and the end of [run], interleaved. *)
Definition repeated_stops : list event :=
  [ EvConnect None; EvConfigSent None;
    EvSignal; EvSignal; EvRecv (RecvRaise closed_by_peer);
    EvQueueGet; EvSignal; EvCloseDone ].

Definition silence : bytes := repeat Byte.x00 3840.

(** A send that raises. *)
Definition send_failure (e : event) : bool :=
  match e with EvSendDone (Some _) => true | _ => false end.

(** A session that streams with both pumps alive. *)
Definition healthy (s : session) : Prop :=
  ph s = Streaming /\ running s = true /\ up s <> UpExited.

End Props.

(* ================================================================== *)
(** ** voice_bridge.py: the remaining methods of [VoiceBridge] *)

Module VoiceBridgeInfo.
Import Py VoiceBridge.
Local Open Scope list_scope.

(** The values of an info [dict]: a [str] or [None]. *)
Definition info := dict (option string).

(** One value of [PRESET_INFO], as the [dict] it is. *)
Definition info_dict (i : PresetInfo) : info :=
  [ ("gender", Some (gender i));
    ("category", Some (category i));
    ("character", Some (character i)) ]%string.

(** The three keys every mapping entry gets. *)
Definition with_names (entry : info) (pp_name : string)
           (el_name : option string) : info :=
  let entry := dict_set entry "personaplex_preset" (Some pp_name) in
  let entry := dict_set entry "personaplex_file" (Some (pp_name ++ ".pt")%string) in
  dict_set entry "elevenlabs_name" el_name.

Definition get_voice_info (name : string) : option info :=
  match get_personaplex_voice name with
  | None => None
  | Some pp_name =>
      if negb (truthy pp_name) then None
      else
        let info :=
          match dict_get PRESET_INFO pp_name with
          | Some i => info_dict i
          | None => []
          end in
        Some (with_names info pp_name (get_elevenlabs_voice pp_name))
  end.

Definition get_all_mappings : list info :=
  map (fun '(pp_name, i) =>
         with_names (info_dict i) pp_name (dict_get _pp_to_el pp_name))
      PRESET_INFO.

(** [m[key] == value] for a key the entries always have. *)
Definition field_is (key value : string) (m : info) : bool :=
  match dict_get m key with
  | Some (Some x) => String.eqb x value
  | _ => false
  end.

Definition get_voices_by_gender (gender : string) : list info :=
  filter (field_is "gender" (Py.lower gender)) get_all_mappings.

Definition get_voices_by_category (category : string) : list info :=
  filter (field_is "category" (Py.lower category)) get_all_mappings.

(** [any(w in desc for w in words)] *)
Definition any_in (words : list string) (desc : string) : bool :=
  existsb (fun w => str_contains w desc) words.

Definition keyword_map : dict (list string) :=
  [ ("warm", ["NATF2"; "NATF1"; "VARF3"]);
    ("friendly", ["NATF2"; "NATM3"; "VARM1"]);
    ("professional", ["NATF0"; "NATM0"]);
    ("calm", ["NATF3"; "NATM2"; "VARF1"]);
    ("energetic", ["NATM3"; "VARF0"; "VARF4"]);
    ("deep", ["NATM0"; "VARM0"]);
    ("authoritative", ["NATM0"; "VARM0"]);
    ("gentle", ["VARF1"; "NATF3"]);
    ("confident", ["VARF2"; "NATM0"]);
    ("casual", ["VARM4"; "VARF4"]);
    ("narrator", ["NATM1"; "VARM3"]);
    ("smooth", ["NATM1"; "VARM3"]);
    ("youthful", ["VARF4"; "VARM1"]) ]%string.

(** [candidates[voice] = candidates.get(voice, 0) + 1] *)
Definition bump (candidates : dict nat) (voice : string) : dict nat :=
  dict_set candidates voice
    (match dict_get candidates voice with Some n => n | None => 0 end + 1).

(** The loop over [keyword_map.items()]. *)
Definition count_candidates (desc : string) : dict nat :=
  fold_left
    (fun candidates '(keyword, voices) =>
       if str_contains keyword desc
       then fold_left bump voices candidates
       else candidates)
    keyword_map [].

(** [k.startswith((p1, p2))] *)
Definition startswith2 (p1 p2 k : string) : bool :=
  String.prefix p1 k || String.prefix p2 k.

(** [max(candidates, key=candidates.get)]: the first key whose count
    is the largest; [None] stands for the [ValueError] on an empty
    [dict]. *)
Fixpoint max_from (best : string) (best_v : nat) (d : dict nat) : string :=
  match d with
  | [] => best
  | (k, v) :: r =>
      if (best_v <? v)%nat then max_from k v r else max_from best best_v r
  end.

Definition max_key (d : dict nat) : option string :=
  match d with
  | [] => None
  | (k, v) :: r => Some (max_from k v r)
  end.

Definition is_female (desc : string) : bool :=
  any_in ["female"; "woman"; "she"; "her"; "girl"]%string desc.

Definition is_male (desc : string) : bool :=
  any_in ["male"; "man"; "he"; "him"; "boy"]%string desc.

(** The candidates after the gender filter. *)
Definition filtered_candidates (desc : string) : dict nat :=
  let candidates := count_candidates desc in
  if is_female desc then
    filter (fun kv => startswith2 "NATF" "VARF" (fst kv)) candidates
  else if is_male desc then
    filter (fun kv => startswith2 "NATM" "VARM" (fst kv)) candidates
  else candidates.

Definition suggest_voice (description : string) : option string :=
  let desc := Py.lower description in
  match max_key (filtered_candidates desc) with
  | Some v => Some v
  | None =>
      if is_female desc then Some "NATF2"%string
      else if is_male desc then Some "NATM1"%string
      else Some "NATF2"%string
  end.

End VoiceBridgeInfo.

(* ================================================================== *)
(** ** offline_eval.py: voice resolution *)

Module OfflineEval.
Import Py.
Local Open Scope list_scope.

Definition VOICE_PRESETS : list string :=
  [ "NATF0"; "NATF1"; "NATF2"; "NATF3";
    "NATM0"; "NATM1"; "NATM2"; "NATM3";
    "VARF0"; "VARF1"; "VARF2"; "VARF3"; "VARF4";
    "VARM0"; "VARM1"; "VARM2"; "VARM3"; "VARM4" ]%string.

Definition VOICE_ALIASES : dict string :=
  [ ("rachel", "NATF2"); ("alice", "NATF1"); ("adam", "NATM1");
    ("george", "NATM0"); ("brian", "NATM2"); ("charlie", "NATM3");
    ("daniel", "VARM0") ]%string.

Inductive log_record : Type :=
| InfoResolvedAlias (voice_name resolved : string)
| WarnUnknownVoice (voice_name : string).

(** [resolve_voice], with what it logs. *)
Definition resolve_voice_log (voice_name : string) : string * list log_record :=
  let upper := Py.upper voice_name in
  if set_mem VOICE_PRESETS upper then (upper, [])
  else
    let lower := Py.lower voice_name in
    match dict_get VOICE_ALIASES lower with
    | Some resolved => (resolved, [InfoResolvedAlias voice_name resolved])
    | None => (voice_name, [WarnUnknownVoice voice_name])
    end.

Definition resolve_voice (voice_name : string) : string :=
  fst (resolve_voice_log voice_name).

(** *** process_single and process_batch

    A path is held as its string, [str(path)].  What the interpreter
    and the file system do is given from outside: the interpreter path,
    [str.strip], the path operations, and for every run of the command
    what [subprocess.run] produced and what the output files look like
    afterwards, or the exception that reading the transcription
    raised.  The two [exists] tests are taken not to raise, and the
    calls of [logger] are left out. *)

(** A value of the result [dict]. *)
Inductive rvalue : Type :=
| RStr (s : string)
| RInt (n : Z)
| RFloat (x : QArith_base.Q)
| RJson (v : Json.value).

(** [subprocess.CompletedProcess], with [text=True]. *)
Record CompletedProcess := mkProc
  { returncode : Z; stdout : string; stderr : string }.

(** An exception of [open], of reading the file or of [json.load]
    other than [JSONDecodeError]: the outer [except] clauses tell
    [FileNotFoundError] from the rest. *)
Inductive read_error : Type :=
| ReadFileNotFound
| ReadException (msg : string).

(** The transcription file after the run: missing; or its content
    with what [json.load] makes of it ([None] stands for
    [JSONDecodeError]); or reading it raises. *)
Inductive text_file : Type :=
| NoTextFile
| TextFile (content : string) (decoded : option Json.value)
| TextFileRaises (e : read_error).

(** What [subprocess.run(cmd, ..., timeout=600)] does. *)
Inductive run_outcome : Type :=
| Completed (proc : CompletedProcess)
            (elapsed : QArith_base.Q)   (* [round(elapsed, 2)] *)
            (text : text_file)          (* [text_output_path] afterwards *)
            (wav_exists : bool)         (* [output_wav.exists()] afterwards *)
| TimeoutExpired
| FileNotFoundError
| OtherException (msg : string).

(** [str(n)] for an [int]. *)
Definition str_of_int (n : Z) : string :=
  DecimalString.NilZero.string_of_int (Z.to_int n).

(** The bytes of [s] after its leading continuation bytes. *)
Fixpoint skip_continuation (s : string) : string :=
  match s with
  | String c r => if Connect.is_continuation c then skip_continuation r else s
  | EmptyString => EmptyString
  end.

(** [s[n:]], in characters *)
Fixpoint cp_drop (n : nat) (s : string) : string :=
  match n, s with
  | S n', String _ r => cp_drop n' (skip_continuation r)
  | _, _ => s
  end.

(** [s[-n:]] for [n > 0] *)
Definition last_chars (n : nat) (s : string) : string :=
  cp_drop (Connect.cp_length s - n) s.

Definition moshi_not_found : string :=
  "moshi package not found. Install with: pip install moshi/.".

Section Process.
Variable executable : string.                        (* [sys.executable] *)
Variable strip : string -> string.                   (* [str.strip] *)
Variable with_suffix : string -> string -> string.   (* [Path.with_suffix] *)
Variable stem : string -> string.                    (* [Path.stem] *)
Variable joinpath : string -> string -> string.      (* [dir / name] *)

(** [output_text or output_wav.with_suffix(".json")] *)
Definition text_output_path (output_wav : string)
           (output_text : option string) : string :=
  match output_text with
  | Some p => p
  | None => with_suffix output_wav ".json"
  end.

(** The command line built by [process_single]. *)
Definition command (voice_preset input_wav output_wav text_prompt : string)
           (seed : Z) (cpu_offload : bool) (text_output : string)
  : list string :=
  [ executable; "-m"; "moshi.offline";
    "--voice-prompt"; voice_preset ++ ".pt";
    "--input-wav"; input_wav;
    "--seed"; str_of_int seed;
    "--output-wav"; output_wav ]%string
  ++ (if truthy text_prompt then ["--text-prompt"; text_prompt]%string else [])
  ++ (if cpu_offload then ["--cpu-offload"]%string else [])
  ++ ["--output-text"; text_output]%string.

Definition set_error (result : dict rvalue) (status error : string)
  : dict rvalue :=
  dict_set (dict_set result "status" (RStr status)) "error" (RStr error).

(** [hf_token] tells whether [HF_TOKEN] is in the environment; [run]
    is the run of the command. *)
Definition process_single (hf_token : bool)
           (run : list string -> run_outcome)
           (input_wav output_wav voice text_prompt : string)
           (seed : Z) (cpu_offload : bool) (output_text : option string)
  : dict rvalue :=
  let voice_preset := resolve_voice voice in
  let text_output := text_output_path output_wav output_text in
  let cmd := command voice_preset input_wav output_wav text_prompt seed
                     cpu_offload text_output in
  if negb hf_token then
    [ ("status", RStr "error");
      ("error", RStr "HF_TOKEN not set");
      ("input", RStr input_wav) ]%string
  else
    let result :=
      [ ("status", RStr "pending");
        ("input", RStr input_wav);
        ("output_wav", RStr output_wav);
        ("output_text", RStr text_output);
        ("voice", RStr voice_preset);
        ("text_prompt",
         RStr (if truthy text_prompt then Connect.cp_take 200 text_prompt
               else EmptyString));
        ("seed", RInt seed) ]%string in
    match run cmd with
    | Completed proc elapsed text wav_exists =>
        let result := dict_set result "duration_seconds" (RFloat elapsed) in
        let with_stdout (result : dict rvalue) :=
          if truthy (strip (stdout proc))
          then dict_set result "stdout"
                 (RStr (last_chars 500 (strip (stdout proc))))
          else result in
        let check_wav (result : dict rvalue) :=
          if negb wav_exists
          then set_error result "error" "Output WAV not created"
          else result in
        if (returncode proc =? 0)%Z then
          let result := dict_set result "status" (RStr "success") in
          match text with
          | NoTextFile => with_stdout (check_wav result)
          | TextFile _ (Some v) =>
              with_stdout (check_wav (dict_set result "transcription" (RJson v)))
          | TextFile content None =>
              with_stdout
                (check_wav
                   (dict_set result "transcription_raw" (RStr (strip content))))
          | TextFileRaises ReadFileNotFound =>
              (* leaves the [try]: [except FileNotFoundError] *)
              set_error result "error" moshi_not_found
          | TextFileRaises (ReadException msg) =>
              (* leaves the [try]: [except Exception as e] *)
              set_error result "error" msg
          end
        else
          with_stdout
            (set_error result "error"
               (if truthy (strip (stderr proc)) then strip (stderr proc)
                else ("Exit code: " ++ str_of_int (returncode proc))%string))
    | TimeoutExpired =>
        set_error result "timeout" "Processing exceeded 10 minute timeout"
    | FileNotFoundError => set_error result "error" moshi_not_found
    | OtherException msg => set_error result "error" msg
    end.

(** The loop of [process_batch] over [wav_files], the sorted result of
    [input_dir.glob("*.wav")]; [run i] is the run of the command for
    the file at position [i]. *)
Fixpoint batch_loop (hf_token : bool)
         (run : nat -> list string -> run_outcome) (i : nat)
         (wav_files : list string) (output_dir voice text_prompt : string)
         (seed : Z) (cpu_offload : bool) : list (dict rvalue) :=
  match wav_files with
  | [] => []
  | wav_file :: rest =>
      let output_wav :=
        joinpath output_dir ("output_" ++ stem wav_file ++ ".wav")%string in
      let output_text :=
        joinpath output_dir ("output_" ++ stem wav_file ++ ".json")%string in
      process_single hf_token (run i) wav_file output_wav voice text_prompt
        seed cpu_offload (Some output_text)
      :: batch_loop hf_token run (S i) rest output_dir voice text_prompt
           seed cpu_offload
  end.

Definition process_batch (hf_token : bool)
           (run : nat -> list string -> run_outcome)
           (wav_files : list string) (output_dir voice text_prompt : string)
           (seed : Z) (cpu_offload : bool) : list (dict rvalue) :=
  match wav_files with
  | [] => []
  | _ => batch_loop hf_token run 0 wav_files output_dir voice text_prompt
           seed cpu_offload
  end.

(** [r["status"] == "success"], as counted at the end of
    [process_batch]. *)
Definition is_success (r : dict rvalue) : bool :=
  match dict_get r "status" with
  | Some (RStr s) => String.eqb s "success"
  | _ => false
  end.

Definition successes (results : list (dict rvalue)) : nat :=
  List.length (filter is_success results).

End Process.

End OfflineEval.


(* ================================================================== *)
(** ** More predicates used in the statements *)

Module Props2.
Import Py Json Connect Props.
Local Open Scope list_scope.

(** [l1] is [l2] with some elements left out. *)
Inductive subseq {A : Type} : list A -> list A -> Prop :=
| subseq_nil : subseq [] []
| subseq_skip : forall l1 l2 x, subseq l1 l2 -> subseq l1 (x :: l2)
| subseq_take : forall l1 l2 x, subseq l1 l2 -> subseq (x :: l1) (x :: l2).

(** The payloads of the binary messages of a wire. *)
Fixpoint audio_frames (w : list message) : list bytes :=
  match w with
  | [] => []
  | Binary b :: r => b :: audio_frames r
  | Text _ :: r => audio_frames r
  end.

(** The block whose send is in progress. *)
Definition in_flight (s : session) : list bytes :=
  match up s with UpSending c => [c] | _ => [] end.

(** All blocks the uplink still holds or has sent, oldest first. *)
Definition uplink_blocks (s : session) : list bytes :=
  audio_frames (wire s) ++ in_flight s ++ AsyncQueue._queue (audio_queue s).

(** The blocks a schedule delivers to the capture callback. *)
Definition captured_of (e : event) : list bytes :=
  match e with EvCapture b => [b] | _ => [] end.

Definition captured (evs : list event) : list bytes :=
  flat_map captured_of evs.

(** The payloads of the binary messages a schedule delivers. *)
Definition received_of (e : event) : list bytes :=
  match e with EvRecv (RecvBytes b) => [b] | _ => [] end.

Definition received (evs : list event) : list bytes :=
  flat_map received_of evs.

(** Neither pump coroutine is running. *)
Definition pumps_idle (s : session) : Prop :=
  up s = UpExited /\ down s = DownExited.

(** What holds of the value returned by [clawdbot_connect]. *)
Definition result_ok (s : session) (r : result) : Prop :=
  r_status r <> connected /\
  (r_status r = error <-> r_error r <> None) /\
  (r_status r = completed -> limited s = true) /\
  (r_status r = disconnected -> limited s = false) /\
  (r_status r = timeout -> limited s = true \/ handlers s = false) /\
  r_server r = server_url s /\
  r_voice r = arg_voice s /\
  r_text_prompt r = shown_prompt (text_prompt s).

Definition returned_ok (s : session) : Prop :=
  match ph s with Returned r => result_ok s r | _ => True end.

(** Outside [Streaming] neither pump runs, and in [Streaming] at least
    one of them does. *)
Definition pumps_match (s : session) : Prop :=
  (ph s <> Streaming -> pumps_idle s) /\
  (ph s = Streaming -> ~ pumps_idle s).

Definition not_sending (u : up_state) : Prop :=
  match u with UpSending _ => False | _ => True end.

(** A session whose running flag was cleared while it streamed: it
    still streams, or it has returned through the normal exit. *)
Definition winding_down (s : session) : Prop :=
  running s = false /\ pumps_match s /\
  (ph s = Streaming \/
   exists r, ph s = Returned r /\ r_status r = normal_status s /\
             r_error r = None).

(** Each pump wakes up once: the wait on the queue ends, a send in
    progress ends with [r], the wait on [recv] ends with [o]. *)
Definition wake_pumps (r : option exn) (o : recv_outcome) : list event :=
  [EvQueueGet; EvSendDone r; EvRecv o].

Definition is_voice_warning (r : Connect.log_record) : bool :=
  match r with WarnUnknownVoice _ => true | _ => false end.

End Props2.

(* ================================================================== *)
(** ** Proof automation for [step] *)

Unset Implicit Arguments.

Module StepTactics.
Import Py Json Connect Props.

Ltac unfold_step :=
  unfold step, on_deadline, settle, run_finally,
    return_raised, return_timeout, return_error, return_normal, stop,
    stop_finish, stop_begin,
    send_done, send_iter, audio_callback, up_loop,
    receive_iter, down_raise, down_except, down_loop, normal_status, limited,
    config_message,
    AsyncQueue.put_nowait, AsyncQueue.get_nowait, AsyncQueue.full in *.

(** Case analysis on the innermost scrutinee of the goal. *)
Ltac break_match :=
  match goal with
  | |- context [match ?x with _ => _ end] =>
      lazymatch x with
      | context [match _ with _ => _ end] => fail
      | _ => let E := fresh "E" in destruct x eqn:E; try rewrite E in *
      end
  end.

Ltac cases := repeat (break_match; cbn in *; try discriminate).

Ltac finish s :=
  try match goal with
      | E : ph s = _, H : is_returned (ph s) = true |- _ => rewrite E in H
      end;
  destruct (running s), (ws s), (handlers s), (sig_stop s); cbn in *;
  try discriminate; intuition (try congruence; try lia).

End StepTactics.

(* ================================================================== *)
(** ** Voice bridge *)

Module VoiceBridgeFacts.
Import Py VoiceBridge Props.
Local Open Scope list_scope.

Lemma opt_eqb_eq (a b : option string) : opt_eqb a b = true -> a = b.
Proof.
  destruct a as [x|], b as [y|]; simpl; try discriminate; auto.
  intros H. apply String.eqb_eq in H. now subst.
Qed.

(** The forward map sends different names to different presets, so no
    key is shadowed when [__init__] builds the reverse map. *)
Lemma forward_values_distinct :
  NoDup (map snd ELEVENLABS_TO_PERSONAPLEX).
Proof.
  unfold ELEVENLABS_TO_PERSONAPLEX; simpl.
  repeat (constructor; [ simpl; intuition discriminate | ]).
  constructor.
Qed.

Lemma el_round_trip_all :
  forallb
    (fun n => opt_eqb (and_then (get_personaplex_voice n) get_elevenlabs_voice)
                      (Some n))
    (keys ELEVENLABS_TO_PERSONAPLEX) = true.
Proof. vm_compute. reflexivity. Qed.

Lemma pp_round_trip_all :
  forallb
    (fun p => negb (dict_mem _pp_to_el p)
              || opt_eqb (and_then (get_elevenlabs_voice p) get_personaplex_voice)
                         (Some p))
    (keys PRESET_INFO) = true.
Proof. vm_compute. reflexivity. Qed.

(** Every preset has a mapped ElevenLabs name. *)
Lemma every_preset_mapped :
  forallb (dict_mem _pp_to_el) (keys PRESET_INFO) = true.
Proof. vm_compute. reflexivity. Qed.

(** C10.  The bridge is a round trip in both directions: for a key [n]
    of [ELEVENLABS_TO_PERSONAPLEX], looking up the preset of [n] and
    then the ElevenLabs name of that preset gives [n] back; for a
    preset [p] of [PRESET_INFO] that has a mapped ElevenLabs name,
    looking up that name and then its preset gives [p] back. *)
Theorem voice_bridge_round_trip (n p : string)
  (Hn : In n (keys ELEVENLABS_TO_PERSONAPLEX))
  (Hp : In p (keys PRESET_INFO))
  (Hmapped : dict_mem _pp_to_el p = true) :
  and_then (get_personaplex_voice n) get_elevenlabs_voice = Some n /\
  and_then (get_elevenlabs_voice p) get_personaplex_voice = Some p.
Proof.
  split.
  - pose proof el_round_trip_all as H.
    rewrite forallb_forall in H. apply opt_eqb_eq, H, Hn.
  - pose proof pp_round_trip_all as H.
    rewrite forallb_forall in H. specialize (H p Hp).
    rewrite Hmapped in H. simpl in H. now apply opt_eqb_eq.
Qed.

Lemma voice_bridge_round_trip_witness :
  and_then (get_personaplex_voice "rachel") get_elevenlabs_voice = Some "rachel" /\
  and_then (get_elevenlabs_voice "NATM1") get_personaplex_voice = Some "NATM1".
Proof.
  apply (@voice_bridge_round_trip "rachel" "NATM1").
  - simpl. auto.
  - simpl. tauto.
  - reflexivity.
Defined.

(** The examples of the module docstring. *)
Example rachel_is_NATF2 : get_personaplex_voice "rachel" = Some "NATF2".
Proof. reflexivity. Qed.

Example NATM1_is_adam : get_elevenlabs_voice "NATM1" = Some "adam".
Proof. reflexivity. Qed.

End VoiceBridgeFacts.

(* ================================================================== *)
(** ** The capture queue *)

Module QueueFacts.
Import AsyncQueue Connect Props.
Local Open Scope list_scope.

Section Unbounded.
Variable A : Type.
Implicit Types (q : Queue A) (x : A).

Lemma put_nowait_unbounded q x :
  maxsize q = 0%Z ->
  put_nowait q x = Some (mkQueue 0 (_queue q ++ [x])).
Proof.
  intros H. unfold put_nowait, full. rewrite H. reflexivity.
Qed.

Lemma apply_op_maxsize q o : maxsize (apply_op q o) = maxsize q.
Proof.
  destruct o as [x|]; simpl.
  - unfold put_nowait. now destruct (full q).
  - unfold get_nowait. now destruct (_queue q).
Qed.

Lemma run_ops_maxsize ops : forall q, maxsize (run_ops q ops) = maxsize q.
Proof.
  induction ops as [|o ops IH]; intros q; simpl; auto.
  unfold run_ops in *. simpl. rewrite IH. apply apply_op_maxsize.
Qed.

(** Draining a queue returns its items, oldest first. *)
Lemma drain_all : forall (l : list A) m, drain (List.length l) (mkQueue m l) = l.
Proof.
  induction l as [|x l IH]; intros m; simpl; auto.
  unfold get_nowait; simpl. now rewrite IH.
Qed.

(** Pushing onto the unbounded queue only ever appends. *)
Lemma pushes_append : forall xs q,
  maxsize q = 0%Z ->
  run_ops q (map (@Push A) xs) = mkQueue 0 (_queue q ++ xs).
Proof.
  induction xs as [|x xs IH]; intros q H.
  - simpl. rewrite app_nil_r. destruct q; simpl in *; now subst.
  - unfold run_ops in *. simpl. rewrite (put_nowait_unbounded q x H).
    rewrite IH by reflexivity. simpl. now rewrite <- app_assoc.
Qed.

(** No capacity bounds the queue the client creates. *)
Lemma no_capacity (cap : nat) (x : A) :
  cap < qsize (run_ops (new A 0) (map (@Push A) (repeat x (S cap)))).
Proof.
  rewrite pushes_append by reflexivity. unfold qsize; simpl.
  rewrite repeat_length. lia.
Qed.
End Unbounded.

End QueueFacts.

(* ================================================================== *)
(** ** Sessions: invariants of [step] *)

Module SessionFacts.
Import Py Json Connect Props StepTactics.
Local Open Scope list_scope.

Local Opaque handle_text truthy_float dumps config Py.upper.

Lemma start_inv url v t d : Inv (start url v t d).
Proof. constructor; cbn; intros; try discriminate; auto. Qed.

Lemma step_inv s e : Inv s -> Inv (step s e).
Proof.
  intros [H1 H2 H3 H4 H5 H6 H7 H8 H9 H10].
  destruct e; unfold_step; cbn; cases;
    (constructor; cbn; try rewrite H10; intros;
     try discriminate; try tauto; try lia; try (finish s; fail)).
Qed.

Lemma exec_inv evs : forall s, Inv s -> Inv (exec s evs).
Proof.
  induction evs as [|e evs IH]; intros s H; simpl; auto.
  apply IH, step_inv, H.
Qed.

Lemma reachable_inv url v t d evs : Inv (clawdbot_connect url v t d evs).
Proof. apply exec_inv, start_inv. Qed.

Lemma exec_cons s e evs : exec s (e :: evs) = exec (step s e) evs.
Proof. reflexivity. Qed.

Lemma exec_app s evs1 evs2 : exec s (evs1 ++ evs2) = exec (exec s evs1) evs2.
Proof. unfold exec. apply fold_left_app. Qed.

(** The arguments and the client's configuration never change. *)
Lemma step_static s e :
  voice (step s e) = voice s /\
  text_prompt (step s e) = text_prompt s /\
  duration_seconds (step s e) = duration_seconds s.
Proof.
  destruct e; unfold_step; cbn; cases; auto.
Qed.

Lemma step_limited s e : limited (step s e) = limited s.
Proof.
  unfold limited. now destruct (step_static s e) as (_ & _ & ->).
Qed.

Lemma step_config_message s e : config_message (step s e) = config_message s.
Proof.
  unfold config_message.
  now destruct (step_static s e) as (-> & -> & _).
Qed.

(** A step leaves the wire alone, or appends the configuration (when
    the first send returns), or appends the block whose send returns. *)
Lemma step_wire s e :
  (wire (step s e) = wire s /\ handlers (step s e) = handlers s)
  \/ (ph s = Configuring /\ e = EvConfigSent None /\
      wire (step s e) = wire s ++ [config_message s] /\
      handlers (step s e) = true)
  \/ (exists c, ph s = Streaming /\ up s = UpSending c /\
                e = EvSendDone None /\
                wire (step s e) = wire s ++ [Binary c] /\
                handlers (step s e) = handlers s).
Proof.
  destruct e; unfold_step; cbn; cases;
    first [ left; split; congruence
          | right; left; repeat split; congruence
          | right; right; eexists; repeat split; congruence ].
Qed.

Lemma step_wire_shape s e : Inv s -> wire_shape s -> wire_shape (step s e).
Proof.
  intros HI HW. unfold wire_shape in *.
  rewrite step_config_message.
  destruct (step_wire s e) as [(-> & ->) | [(Hp & _ & -> & ->) | (c & Hp & _ & _ & -> & ->)]].
  - exact HW.
  - destruct (inv_configuring HI Hp) as (_ & Hh). rewrite Hh in HW.
    rewrite HW. now exists [].
  - rewrite (inv_streaming HI Hp) in *. destruct HW as (frames & ->).
    exists (frames ++ [c]). now rewrite map_app.
Qed.

Lemma exec_wire_shape evs :
  forall s, Inv s -> wire_shape s -> wire_shape (exec s evs).
Proof.
  induction evs as [|e evs IH]; intros s HI HW; simpl; auto.
  apply IH; [now apply step_inv | now apply step_wire_shape].
Qed.

Lemma step_handlers_mono s e : handlers s = true -> handlers (step s e) = true.
Proof.
  intros H.
  destruct (step_wire s e) as [(_ & ->) | [(_ & _ & _ & ->) | (c & _ & _ & _ & _ & ->)]]; auto.
Qed.

Lemma exec_handlers_mono evs :
  forall s, handlers s = true -> handlers (exec s evs) = true.
Proof.
  induction evs as [|e evs IH]; intros s H; simpl; auto.
  apply IH, step_handlers_mono, H.
Qed.

Lemma exec_config_message evs :
  forall s, config_message (exec s evs) = config_message s.
Proof.
  induction evs as [|e evs IH]; intros s; simpl; auto.
  now rewrite IH, step_config_message.
Qed.

Lemma exec_limited evs : forall s, limited (exec s evs) = limited s.
Proof.
  induction evs as [|e evs IH]; intros s; simpl; auto.
  now rewrite IH, step_limited.
Qed.

(** Once [clawdbot_connect] has returned, its result stays. *)
Lemma step_returned s e r : ph s = Returned r -> ph (step s e) = Returned r.
Proof.
  intros H. destruct e; unfold_step; cbn; rewrite ?H; cbn; cases; auto.
Qed.

Lemma exec_returned evs :
  forall s r, ph s = Returned r -> ph (exec s evs) = Returned r.
Proof.
  induction evs as [|e evs IH]; intros s r H; simpl; auto.
  eapply IH, step_returned, H.
Qed.

Lemma step_normal_exit s e :
  stop_request e = false -> normal_exit s -> normal_exit (step s e).
Proof.
  unfold normal_exit, normal_status. intros He H.
  destruct e; try discriminate; unfold_step; cbn; cases;
    auto; try tauto; try (intuition congruence).
Qed.

Lemma exec_normal_exit evs :
  forall s, no_stop_request evs -> normal_exit s -> normal_exit (exec s evs).
Proof.
  unfold no_stop_request.
  induction evs as [|e evs IH]; intros s He H; simpl in *; auto.
  apply andb_prop in He. destruct He as [He1 He2].
  apply IH; auto. apply step_normal_exit; auto.
  now destruct (stop_request e).
Qed.

End SessionFacts.

(* ================================================================== *)
(** ** Sessions: the session controller *)

Module ControllerFacts.
Import Py Json Connect Props StepTactics SessionFacts.
Local Open Scope list_scope.

Local Opaque handle_text truthy_float dumps config Py.upper.

(** The session once the connection is open and the first send has
    returned. *)
Lemma started_session url v t d :
  let s := clawdbot_connect url v t d [EvConnect None; EvConfigSent None] in
  ph s = Streaming /\ handlers s = true /\ running s = true /\
  up s = UpWaiting /\ down s = DownWaiting /\
  wire s = [Text (dumps (config (Py.upper v) t))].
Proof. cbn. repeat split; reflexivity. Qed.

Lemma reachable_wire_shape url v t d evs :
  wire_shape (clawdbot_connect url v t d evs).
Proof.
  apply exec_wire_shape; [apply start_inv | reflexivity].
Qed.

Lemma filter_text_frames frames :
  filter is_text (map Binary frames) = [].
Proof. induction frames; simpl; auto. Qed.

(** After a successful start the wire is the configuration message
    followed by binary frames. *)
Lemma started_wire url v t d rest :
  exists frames,
    wire (clawdbot_connect url v t d
            (EvConnect None :: EvConfigSent None :: rest))
    = Text (dumps (config (Py.upper v) t)) :: map Binary frames.
Proof.
  set (s := clawdbot_connect url v t d
              (EvConnect None :: EvConfigSent None :: rest)).
  pose proof (reachable_wire_shape url v t d
                (EvConnect None :: EvConfigSent None :: rest)) as HW.
  fold s in HW. unfold wire_shape in HW.
  assert (Hh : handlers s = true).
  { unfold s, clawdbot_connect. rewrite !exec_cons.
    now apply exec_handlers_mono. }
  assert (Hc : config_message s = Text (dumps (config (Py.upper v) t))).
  { unfold s, clawdbot_connect. rewrite !exec_cons.
    now rewrite exec_config_message. }
  now rewrite Hh, Hc in HW.
Qed.

(** C1.  When the connection opens and the first send returns, then
    whatever happens afterwards the messages sent on the connection are
    the configuration message followed by binary (audio) frames only:
    it is sent exactly once, it is the first message, and every audio
    frame comes after it. *)
Theorem start_sends_config_first url v t d rest :
  let s := clawdbot_connect url v t d
             (EvConnect None :: EvConfigSent None :: rest) in
  let cfg := Text (dumps (config (Py.upper v) t)) in
  exists frames,
    wire s = cfg :: map Binary frames /\
    filter is_text (wire s) = [cfg] /\
    hd_error (wire s) = Some cfg /\
    (forall i b, nth_error (wire s) i = Some (Binary b) -> 0 < i).
Proof.
  intros s cfg.
  destruct (started_wire url v t d rest) as (frames & HW).
  fold s cfg in HW. exists frames. rewrite HW.
  split; [reflexivity|].
  split; [simpl; now rewrite filter_text_frames|].
  split; [reflexivity|].
  intros [|i] b H; [discriminate | lia].
Qed.

(** C3, as the code has it.  A session that got to stream and then
    ended without a stop request (no signal, no expiry of the duration
    limit) ended through the failure of its pumps; its result has
    status [completed] when a duration limit was given and
    [disconnected] when none was. *)
Theorem transport_failure_status url v t d evs r
  (Hquiet : no_stop_request evs)
  (Hret : returned (clawdbot_connect url v t d
                      (EvConnect None :: EvConfigSent None :: evs)) = Some r) :
  r_status r = (if truthy_float d then completed else disconnected) /\
  r_error r = None.
Proof.
  unfold clawdbot_connect in Hret. rewrite !exec_cons in Hret.
  set (s2 := step (step (start url v t d) (EvConnect None)) (EvConfigSent None)) in *.
  assert (H2 : normal_exit s2) by exact I.
  pose proof (exec_normal_exit evs s2 Hquiet H2) as H.
  unfold returned in Hret. unfold normal_exit in H.
  destruct (ph (exec s2 evs)) eqn:E; try discriminate.
  injection Hret as ->.
  unfold normal_status in H. rewrite exec_limited in H.
  exact H.
Qed.

(** Such a session cannot return unless a send has failed: while no
    send fails the uplink pump stays alive and [gather] goes on. *)
Lemma step_healthy s e :
  stop_request e = false -> send_failure e = false ->
  healthy s -> healthy (step s e).
Proof.
  unfold healthy. intros He Hf (Hp & Hr & Hu).
  destruct e as [r|r| | |r| | | |]; try discriminate;
    try (destruct r; try discriminate);
    unfold_step; cbn; rewrite ?Hp, ?Hr; cbn; cases;
    repeat split; auto; try congruence; try discriminate.
Qed.

Lemma exec_healthy evs :
  forall s, no_stop_request evs -> existsb send_failure evs = false ->
            healthy s -> healthy (exec s evs).
Proof.
  unfold no_stop_request.
  induction evs as [|e evs IH]; intros s He Hf H; simpl in *; auto.
  apply andb_prop in He. destruct He as [He1 He2].
  apply orb_false_elim in Hf. destruct Hf as [Hf1 Hf2].
  apply IH; auto. apply step_healthy; auto.
  now destruct (stop_request e).
Qed.

Lemma quiet_return_has_send_failure url v t d evs r :
  no_stop_request evs ->
  returned (clawdbot_connect url v t d
              (EvConnect None :: EvConfigSent None :: evs)) = Some r ->
  existsb send_failure evs = true.
Proof.
  intros Hq Hret.
  destruct (existsb send_failure evs) eqn:E; [reflexivity|].
  unfold clawdbot_connect in Hret. rewrite !exec_cons in Hret.
  assert (H : healthy (step (step (start url v t d) (EvConnect None))
                            (EvConfigSent None))).
  { repeat split. discriminate. }
  destruct (exec_healthy evs _ Hq E H) as (Hp & _).
  unfold returned in Hret. rewrite Hp in Hret. discriminate.
Qed.

Local Transparent truthy_float dumps config Py.upper.

Lemma transport_failure_status_witness :
  no_stop_request dropped_connection /\
  r_status (mkResult disconnected localhost "NATF2" EmptyString None)
  = disconnected.
Proof.
  split; [vm_compute; reflexivity|].
  apply (@transport_failure_status localhost "NATF2" EmptyString None
           dropped_connection
           (mkResult disconnected localhost "NATF2" EmptyString None)).
  - vm_compute; reflexivity.
  - vm_compute; reflexivity.
Defined.

(** C3, as stated, fails: with a duration limit of 60 seconds, a
    connection that drops before the limit ends the session with
    status [completed]. *)
Lemma transport_failure_completed :
  no_stop_request dropped_connection /\
  existsb send_failure dropped_connection = true /\
  returned (clawdbot_connect localhost "NATF2" EmptyString
              (Some (QArith_base.Qmake 60 1))
              (EvConnect None :: EvConfigSent None :: dropped_connection))
  = Some (mkResult completed localhost "NATF2" EmptyString None).
Proof. vm_compute. repeat split. Qed.

Local Opaque truthy_float dumps config Py.upper.

Lemma stop_running s : running (stop s) = false.
Proof.
  unfold stop, stop_finish, stop_begin.
  destruct (running s) eqn:E; cbn; auto.
  destruct (ws s); cbn; auto.
Qed.

Lemma stop_noop s : running s = false -> stop s = s.
Proof. intros H. unfold stop, stop_begin. now rewrite H. Qed.

Lemma signal_noop s : running s = false -> step s EvSignal = s.
Proof.
  intros H. unfold step, stop_begin. rewrite H. cbn.
  now destruct (handlers s).
Qed.

Lemma stop_closes s : Inv s -> closes (stop s) <= 1.
Proof.
  intros HI. unfold stop, stop_finish, stop_begin.
  destruct (running s) eqn:E; cbn; [|apply HI].
  destruct (inv_running HI E) as (Hc & Hw). rewrite Hw. cbn. lia.
Qed.


Local Transparent truthy_float dumps config Py.upper.


Local Opaque truthy_float dumps config Py.upper.


Local Transparent truthy_float dumps config Py.upper.



End ControllerFacts.

(* ================================================================== *)
(** ** Sessions: the two pumps and the queue between them *)

Module PumpFacts.
Import Py Json Connect Props SessionFacts ControllerFacts.
Local Open Scope list_scope.

Lemma BLOCK_BYTES_value : BLOCK_BYTES = 3840%Z.
Proof. reflexivity. Qed.

(** *** The capture queue inside a session *)

Lemma reachable_queue_unbounded url v t d evs :
  AsyncQueue.maxsize (audio_queue (clawdbot_connect url v t d evs)) = 0%Z.
Proof. apply (inv_queue (reachable_inv url v t d evs)). Qed.

(** C2, as stated, fails: the queue of [send_audio] has no capacity.
    After 26 captured blocks and no pop it holds 26 blocks, more than
    the 25 of the specification's default; the oldest block is still at
    its head and nothing was logged. *)
Lemma capture_queue_exceeds_capacity :
  let s := exec streaming_session (map EvCapture (blocks 26)) in
  AsyncQueue.qsize (audio_queue s) = 26 /\
  25 < AsyncQueue.qsize (audio_queue s) /\
  AsyncQueue.maxsize (audio_queue s) = 0%Z /\
  hd_error (AsyncQueue._queue (audio_queue s)) = Some (block 0) /\
  log s = log streaming_session.
Proof. vm_compute. repeat split. lia. Qed.

(** C2, as the code has it.  In every session the capture callback
    appends its block behind the queued ones, whatever the length of
    the queue: the push does not fail and drops nothing, the queue
    grows by one, nothing is logged, and draining the queue returns the
    older blocks in order and then the new block. *)
Theorem capture_queue_unbounded url v t d evs indata :
  let s := clawdbot_connect url v t d evs in
  let q := audio_queue s in
  let s' := audio_callback indata s in
  let q' := audio_queue s' in
  AsyncQueue.put_nowait q indata = Some q' /\
  AsyncQueue._queue q' = AsyncQueue._queue q ++ [indata] /\
  AsyncQueue.qsize q' = S (AsyncQueue.qsize q) /\
  AsyncQueue.drain (AsyncQueue.qsize q') q' = AsyncQueue._queue q ++ [indata] /\
  log s' = log s.
Proof.
  intros s q s' q'.
  pose proof (reachable_queue_unbounded url v t d evs) as Hm. fold s in Hm.
  pose proof (QueueFacts.put_nowait_unbounded bytes (audio_queue s) indata Hm) as Hp.
  assert (Hq' : q' = AsyncQueue.mkQueue 0 (AsyncQueue._queue q ++ [indata])).
  { unfold q', s', audio_callback. now rewrite Hp. }
  assert (Hl : log s' = log s).
  { unfold s', audio_callback. now rewrite Hp. }
  rewrite Hq'. fold q in Hp.
  repeat split; auto.
  - unfold AsyncQueue.qsize; simpl. rewrite length_app; simpl. lia.
  - apply QueueFacts.drain_all.
Qed.

(** *** The uplink pump *)

(** C9.  Framing is the identity.  While the session streams (running
    flag set, connection present), a block of 3840 bytes popped by the
    uplink pump is handed to [_ws.send] as it is, and when the send
    returns the wire has gained exactly one binary message whose payload
    is that block. *)
Theorem framing_pass_through s c q
  (Hph : ph s = Streaming) (Hup : up s = UpWaiting)
  (Hrun : running s = true) (Hws : ws s = true)
  (Hpop : AsyncQueue.get_nowait (audio_queue s) = Some (c, q))
  (Hlen : Z.of_nat (List.length c) = BLOCK_BYTES) :
  let s1 := step s EvQueueGet in
  let s2 := step s1 (EvSendDone None) in
  up s1 = UpSending c /\ wire s1 = wire s /\ audio_queue s1 = q /\
  wire s2 = wire s ++ [Binary c] /\
  Z.of_nat (List.length c) = 3840%Z.
Proof.
  intros s1 s2.
  assert (E1 : s1 = set_up (UpSending c) (set_audio_queue q s)).
  { unfold s1, step. rewrite Hph, Hup. unfold send_iter. rewrite Hpop.
    cbn. rewrite Hws, Hrun. cbn. unfold settle. cbn. now rewrite Hph. }
  assert (E2 : wire s2 = wire s ++ [Binary c]).
  { unfold s2, step. rewrite E1. cbn. rewrite Hph.
    unfold send_done, up_loop. cbn. rewrite Hrun. unfold settle. cbn.
    now rewrite Hph. }
  rewrite E1 in *. cbn. repeat split; auto.
Qed.

Lemma framing_pass_through_witness :
  let s := step streaming_session (EvCapture silence) in
  wire (step (step s EvQueueGet) (EvSendDone None)) = wire s ++ [Binary silence].
Proof.
  intros s.
  apply (@framing_pass_through s silence (AsyncQueue.mkQueue 0 []));
    vm_compute; reflexivity.
Defined.

(** *** The downlink pump *)

Lemma downlink_continues s r :
  ph s = Streaming -> down s = DownWaiting -> running s = true ->
  let s' := settle (down_loop (add_log r s)) in
  log s' = log s ++ [r] /\ down s' = DownWaiting /\
  running s' = true /\ ph s' = Streaming /\
  wire s' = wire s /\ closes s' = closes s.
Proof.
  intros Hph Hd Hr. unfold down_loop. cbn. rewrite Hr. unfold settle. cbn.
  rewrite Hph. destruct (up s); cbn; rewrite ?Hr, ?Hph; auto 10.
Qed.

Lemma step_recv_text s m r :
  ph s = Streaming -> down s = DownWaiting -> handle_text m = inr r ->
  step s (EvRecv (RecvStr m)) = settle (down_loop (add_log r s)).
Proof.
  intros Hph Hd Hh. unfold step. rewrite Hph, Hd. unfold receive_iter.
  now rewrite Hh.
Qed.

Lemma dict_mem_get {V} (d : dict V) k v : dict_get d k = Some v -> dict_mem d k = true.
Proof. unfold dict_mem. now intros ->. Qed.

Lemma dict_mem_none {V} (d : dict V) k : dict_get d k = None -> dict_mem d k = false.
Proof. unfold dict_mem. now intros ->. Qed.

(** C7, as the code has it.  An inbound text that decodes to an object
    with a [text] field is logged as exactly one agent utterance with
    the value of that field; one that decodes to an object with an
    [error] field and no [text] field is logged as exactly one server
    error with the value of that field.  In both cases the pump keeps
    waiting for the next message and the running flag, the phase and
    the connection are as before. *)
Theorem control_text_events s m d v
  (Hph : ph s = Streaming) (Hdown : down s = DownWaiting)
  (Hrun : running s = true)
  (Hdec : loads m = Some (JDict d)) :
  let s' := step s (EvRecv (RecvStr m)) in
  (dict_get d "text" = Some v -> log s' = log s ++ [InfoAgent v]) /\
  (dict_get d "text" = None -> dict_get d "error" = Some v ->
   log s' = log s ++ [ErrorServer v]) /\
  (dict_mem d "text" || dict_mem d "error" = true ->
   down s' = DownWaiting /\ running s' = true /\ ph s' = Streaming /\
   closes s' = closes s).
Proof.
  intros s'. unfold s'.
  assert (Ht : forall x, dict_get d "text" = Some x ->
                         handle_text m = inr (InfoAgent x)).
  { intros x Hx. unfold handle_text, contains, getitem, dict_mem.
    now rewrite Hdec, Hx. }
  assert (He : forall x, dict_get d "text" = None -> dict_get d "error" = Some x ->
                         handle_text m = inr (ErrorServer x)).
  { intros x Hn Hx. unfold handle_text, contains, getitem, dict_mem.
    now rewrite Hdec, Hn, Hx. }
  split; [|split].
  - intros Hx. rewrite (step_recv_text s m _ Hph Hdown (Ht _ Hx)).
    apply (downlink_continues s _ Hph Hdown Hrun).
  - intros Hn Hx. rewrite (step_recv_text s m _ Hph Hdown (He _ Hn Hx)).
    apply (downlink_continues s _ Hph Hdown Hrun).
  - intros Hm. destruct (dict_get d "text") as [x|] eqn:Hx.
    + rewrite (step_recv_text s m _ Hph Hdown (Ht _ eq_refl)).
      destruct (downlink_continues s (InfoAgent x) Hph Hdown Hrun)
        as (_ & ? & ? & ? & _ & ?). auto.
    + rewrite (dict_mem_none _ _ Hx) in Hm. cbn in Hm.
      unfold dict_mem in Hm.
      destruct (dict_get d "error") as [y|] eqn:Hy; try discriminate.
      rewrite (step_recv_text s m _ Hph Hdown (He _ eq_refl eq_refl)).
      destruct (downlink_continues s (ErrorServer y) Hph Hdown Hrun)
        as (_ & ? & ? & ? & _ & ?). auto.
Qed.

Lemma control_text_events_witness :
  let s' := step streaming_session (EvRecv (RecvStr (dq "{'text':'hello'}"))) in
  log s' = log streaming_session ++ [InfoAgent (JStr "hello")].
Proof.
  intros s'.
  apply (@control_text_events streaming_session (dq "{'text':'hello'}")
           [("text"%string, JStr "hello")] (JStr "hello"));
    vm_compute; reflexivity.
Defined.

Example server_error_event :
  let s' := step streaming_session (EvRecv (RecvStr (dq "{'error':'oops'}"))) in
  log s' = log streaming_session ++ [ErrorServer (JStr "oops")] /\
  down s' = DownWaiting /\ running s' = true /\ ph s' = Streaming.
Proof. vm_compute. auto. Qed.

(** C7, as stated, fails on an object that has both fields: the
    [text] branch is taken and no server error is logged. *)
Lemma text_field_hides_error_field :
  let m := dq "{'text':'hi','error':'oops'}" in
  let s' := step streaming_session (EvRecv (RecvStr m)) in
  loads m = Some (JDict [("text"%string, JStr "hi"); ("error"%string, JStr "oops")]) /\
  log s' = log streaming_session ++ [InfoAgent (JStr "hi")] /\
  ~ In (ErrorServer (JStr "oops")) (log s').
Proof.
  vm_compute. repeat split.
  intros H. repeat (destruct H as [H|H]; [discriminate|]). exact H.
Qed.

(** C4 on the code.  The text [5] is valid JSON and decodes to an
    integer; the membership test on it raises [TypeError], which only
    the outer handler catches: the error is logged and the downlink
    pump ends, with the running flag still set. *)
Theorem non_object_json_ends_downlink :
  let s' := step streaming_session (EvRecv (RecvStr "5")) in
  loads "5" = Some (JInt 5) /\
  handle_text "5" = inl TypeError /\
  down streaming_session = DownWaiting /\
  down s' = DownExited /\
  log s' = log streaming_session ++ [ErrorReceiving TypeError] /\
  running s' = true.
Proof. vm_compute. repeat split. Qed.

(** The two cases in which the fall-back works. *)
Lemma undecodable_text_is_logged s m :
  ph s = Streaming -> down s = DownWaiting -> running s = true ->
  loads m = None ->
  let s' := step s (EvRecv (RecvStr m)) in
  log s' = log s ++ [InfoAgent (JStr m)] /\ down s' = DownWaiting /\
  running s' = true /\ ph s' = Streaming.
Proof.
  intros Hph Hd Hr Hl s'. unfold s'.
  assert (Hh : handle_text m = inr (InfoAgent (JStr m))).
  { unfold handle_text. now rewrite Hl. }
  rewrite (step_recv_text s m _ Hph Hd Hh).
  destruct (downlink_continues s (InfoAgent (JStr m)) Hph Hd Hr)
    as (? & ? & ? & ? & _). auto.
Qed.

Lemma unrecognised_object_is_logged s m d :
  ph s = Streaming -> down s = DownWaiting -> running s = true ->
  loads m = Some (JDict d) ->
  dict_get d "text" = None -> dict_get d "error" = None ->
  let s' := step s (EvRecv (RecvStr m)) in
  log s' = log s ++ [DebugServerMessage (JDict d)] /\ down s' = DownWaiting /\
  running s' = true /\ ph s' = Streaming.
Proof.
  intros Hph Hd Hr Hl Ht He s'. unfold s'.
  assert (Hh : handle_text m = inr (DebugServerMessage (JDict d))).
  { unfold handle_text, contains, getitem, dict_mem.
    now rewrite Hl, Ht, He. }
  rewrite (step_recv_text s m _ Hph Hd Hh).
  destruct (downlink_continues s (DebugServerMessage (JDict d)) Hph Hd Hr)
    as (? & ? & ? & ? & _). auto.
Qed.

Example not_json_is_logged :
  let s' := step streaming_session (EvRecv (RecvStr "not json")) in
  log s' = log streaming_session ++ [InfoAgent (JStr "not json")] /\
  down s' = DownWaiting /\ ph s' = Streaming.
Proof. vm_compute. auto. Qed.

End PumpFacts.

(* ================================================================== *)
(** ** The configuration message *)

Module ConfigFacts.
Import Py Json Connect Props SessionFacts ControllerFacts.
Local Open Scope string_scope.

Lemma app_assoc_str (a b c : string) : (a ++ b) ++ c = a ++ (b ++ c).
Proof. induction a as [|x a IH]; simpl; congruence. Qed.

(** [scanstring] on its three kinds of input. *)
Lemma scanstring_plain c r :
  Ascii.eqb c dquote = false -> Ascii.eqb c backslash = false ->
  (nat_of_ascii c <? 32)%nat = false ->
  scanstring (String c r) = prepend (String c EmptyString) (scanstring r).
Proof. intros H1 H2 H3. cbn [scanstring]. now rewrite H1, H2, H3. Qed.

Lemma scanstring_simple_escape e ch r :
  simple_escape e = Some ch ->
  scanstring (String backslash (String e r))
  = prepend (String ch EmptyString) (scanstring r).
Proof. intros H. cbn [scanstring]. now rewrite H. Qed.

Lemma scanstring_u h1 h2 h3 h4 uni out r :
  hex4 h1 h2 h3 h4 = Some uni -> is_high_surrogate uni = false ->
  utf8_encode uni = out ->
  scanstring (String backslash (String "u"%char
                (String h1 (String h2 (String h3 (String h4 r))))))
  = prepend out (scanstring r).
Proof. intros H1 H2 <-. cbn [scanstring]. now rewrite H1, H2. Qed.

(** Decoding undoes the escaping of one ASCII character. *)
Lemma scanstring_escape_cp (c : ascii) (rest : string) :
  (N_of_ascii c <? 128)%N = true ->
  scanstring (escape_cp (N_of_ascii c) ++ rest)
  = prepend (String c EmptyString) (scanstring rest).
Proof.
  destruct c as [b0 b1 b2 b3 b4 b5 b6 b7].
  destruct b7;
    [intros H; destruct b0, b1, b2, b3, b4, b5, b6; vm_compute in H; discriminate|].
  intros _.
  destruct b0, b1, b2, b3, b4, b5, b6;
    match goal with
    | |- scanstring (?e ++ _) = _ =>
        let e' := eval vm_compute in e in change e with e'
    end;
    cbn [append];
    first [ apply scanstring_plain; reflexivity
          | apply scanstring_simple_escape; reflexivity
          | eapply scanstring_u; reflexivity ].
Qed.

Lemma scanstring_encode_body (s rest : string) :
  is_ascii s = true ->
  scanstring (encode_body s ++ String dquote rest) = Some (s, rest).
Proof.
  induction s as [|c s IH]; intros H.
  - reflexivity.
  - simpl in H. apply andb_prop in H. destruct H as [Hc Hs].
    assert (H192 : (N_of_ascii c <? 192)%N = true).
    { apply N.ltb_lt. apply N.ltb_lt in Hc. lia. }
    cbn [encode_body]. rewrite H192.
    rewrite app_assoc_str, scanstring_escape_cp by exact Hc.
    now rewrite IH.
Qed.

Lemma is_ascii_app a b : is_ascii a = true -> is_ascii b = true -> is_ascii (a ++ b) = true.
Proof.
  induction a as [|x a IH]; simpl; auto.
  intros H Hb. apply andb_prop in H. destruct H as [-> Ha]. simpl. auto.
Qed.

Lemma upper_char_ascii c : (N_of_ascii c <? 128)%N = true -> (N_of_ascii (upper_char c) <? 128)%N = true.
Proof.
  destruct c as [b0 b1 b2 b3 b4 b5 b6 b7].
  destruct b7; [intros H; destruct b0, b1, b2, b3, b4, b5, b6; vm_compute in H; discriminate|].
  intros _. destruct b0, b1, b2, b3, b4, b5, b6; vm_compute; reflexivity.
Qed.

Lemma is_ascii_upper s : is_ascii s = true -> is_ascii (Py.upper s) = true.
Proof.
  induction s as [|c s IH]; simpl; auto.
  intros H. apply andb_prop in H. destruct H as [Hc Hs].
  unfold Py.upper in *. simpl. rewrite (upper_char_ascii c Hc). simpl. auto.
Qed.

(** A quoted ASCII string decodes to itself. *)
Lemma scan_once_str f s rest :
  is_ascii s = true ->
  scan_once (S f) (encode_str s ++ rest) = Some (JStr s, rest).
Proof.
  intros H. unfold encode_str. cbn [append]. rewrite app_assoc_str.
  cbn [scan_once]. cbn [Ascii.eqb dquote Bool.eqb]. cbn [append].
  now rewrite scanstring_encode_body.
Qed.

(** One iteration of the loop of [JSONObject]. *)
Lemma object_items_step f r acc key r1 r2 v r3 :
  scanstring r = Some (key, r1) ->
  skip_ws r1 = String ":"%char r2 ->
  scan_once f (skip_ws r2) = Some (v, r3) ->
  object_items (S f) (String dquote r) acc
  = match skip_ws r3 with
    | String c3 r4 =>
        if Ascii.eqb c3 "}"%char then Some (dict_set acc key v, r4)
        else if Ascii.eqb c3 ","%char
             then object_items f (skip_ws r4) (dict_set acc key v)
             else None
    | EmptyString => None
    end.
Proof.
  intros H1 H2 H3. cbn [object_items].
  rewrite Ascii.eqb_refl, H1, H2, Ascii.eqb_refl, H3. reflexivity.
Qed.

Lemma encode_item_app k v rest :
  encode_item (k, v) ++ rest
  = String dquote (encode_body k ++ String dquote
      (String ":"%char (String " "%char (encode_str v ++ rest)))).
Proof.
  unfold encode_item, encode_str. cbn [fst snd append].
  rewrite !app_assoc_str. cbn [append]. now rewrite !app_assoc_str.
Qed.

Lemma skip_ws_quoted s rest : skip_ws (encode_str s ++ rest) = encode_str s ++ rest.
Proof. reflexivity. Qed.

(** One item of an object whose key and value are ASCII strings. *)
Lemma object_items_item f k v acc rest :
  is_ascii k = true -> is_ascii v = true ->
  object_items (S (S f)) (encode_item (k, v) ++ rest) acc
  = match skip_ws rest with
    | String c3 r4 =>
        if Ascii.eqb c3 "}"%char then Some (dict_set acc k (JStr v), r4)
        else if Ascii.eqb c3 ","%char
             then object_items (S f) (skip_ws r4) (dict_set acc k (JStr v))
             else None
    | EmptyString => None
    end.
Proof.
  intros Hk Hv. rewrite encode_item_app.
  eapply object_items_step.
  - now apply scanstring_encode_body.
  - reflexivity.
  - change (skip_ws (String " "%char (encode_str v ++ rest)))
      with (skip_ws (encode_str v ++ rest)).
    rewrite skip_ws_quoted. now apply scan_once_str.
Qed.

Lemma object_items_last f k v acc rest :
  is_ascii k = true -> is_ascii v = true ->
  object_items (S (S f)) (encode_item (k, v) ++ String "}"%char rest) acc
  = Some (dict_set acc k (JStr v), rest).
Proof. intros Hk Hv. now rewrite object_items_item. Qed.

Lemma object_items_more f k v acc item rest :
  is_ascii k = true -> is_ascii v = true ->
  object_items (S (S f))
    (encode_item (k, v)
     ++ String ","%char (String " "%char (encode_item item ++ rest))) acc
  = object_items (S f) (encode_item item ++ rest) (dict_set acc k (JStr v)).
Proof.
  intros Hk Hv. rewrite object_items_item by assumption.
  destruct item as [k2 v2]. rewrite !encode_item_app. reflexivity.
Qed.

Lemma scan_once_object f item rest :
  scan_once (S f) (String "{"%char (encode_item item ++ rest))
  = match object_items f (encode_item item ++ rest) [] with
    | Some (d, rest') => Some (JDict d, rest')
    | None => None
    end.
Proof.
  destruct item as [k v]. rewrite encode_item_app. reflexivity.
Qed.

Lemma length_app_str a b :
  String.length (a ++ b) = String.length a + String.length b.
Proof. induction a as [|x a IH]; simpl; congruence. Qed.

Lemma loads_of_scan s v :
  skip_ws s = s ->
  scan_once (S (String.length s)) s = Some (v, EmptyString) ->
  loads s = Some v.
Proof. intros H1 H2. unfold loads. now rewrite H1, H2. Qed.

Lemma encode_item_length item rest :
  exists n, String.length (encode_item item ++ rest) = S (S (S n)).
Proof.
  destruct item as [k v]. rewrite encode_item_app.
  cbn [String.length]. rewrite length_app_str. cbn [String.length].
  eexists. rewrite Nat.add_succ_r, Nat.add_succ_r. reflexivity.
Qed.

(** The configuration message decodes to the configuration. *)
Lemma loads_dumps_config v t :
  is_ascii v = true -> is_ascii t = true ->
  loads (dumps (config v t)) = Some (of_dict (config v t)).
Proof.
  intros Hv Ht.
  assert (Hvp : is_ascii (v ++ ".pt") = true) by now apply is_ascii_app.
  unfold config. destruct t as [|c t'] eqn:E; cbn [truthy].
  - change (dumps [("voice_prompt", v ++ ".pt")])
      with (String "{"%char (encode_item ("voice_prompt", v ++ ".pt") ++ "}")).
    apply loads_of_scan; [reflexivity|].
    destruct (encode_item_length ("voice_prompt", v ++ ".pt") "}") as (n & Hn).
    cbn [String.length]. rewrite Hn.
    rewrite scan_once_object, object_items_last by (auto; reflexivity).
    reflexivity.
  - rewrite <- E in *. clear E.
    change (dict_set [("voice_prompt", v ++ ".pt")] "text_prompt" t)
      with [("voice_prompt", v ++ ".pt"); ("text_prompt", t)].
    assert (Hd : dumps [("voice_prompt", v ++ ".pt"); ("text_prompt", t)]
                 = String "{"%char
                     (encode_item ("voice_prompt", v ++ ".pt")
                      ++ String ","%char (String " "%char
                           (encode_item ("text_prompt", t) ++ "}")))).
    { unfold dumps. cbn [map String.concat append].
      now rewrite !app_assoc_str. }
    rewrite Hd. apply loads_of_scan; [reflexivity|].
    destruct (encode_item_length ("voice_prompt", v ++ ".pt")
                (String ","%char (String " "%char
                   (encode_item ("text_prompt", t) ++ "}")))) as (n & Hn).
    cbn [String.length]. rewrite Hn.
    rewrite scan_once_object, object_items_more, object_items_last
      by (auto; reflexivity).
    reflexivity.
Qed.



Example default_config_text :
  dumps (config (Py.upper "natf2") EmptyString) = dq "{'voice_prompt': 'NATF2.pt'}".
Proof. vm_compute. reflexivity. Qed.

End ConfigFacts.

(* ================================================================== *)
(** ** Voice bridge: the look-ups on arbitrary names *)

Module VoiceLookupFacts.
Import Py VoiceBridge VoiceBridgeInfo Props VoiceBridgeFacts.
Local Open Scope list_scope.

Lemma dict_get_In_key {V} (d : dict V) k v : dict_get d k = Some v -> In k (keys d).
Proof.
  induction d as [|[k' v'] d IH]; simpl; [discriminate|].
  destruct (String.eqb_spec k k'); auto.
Qed.

Lemma dict_get_In_value {V} (d : dict V) k v :
  dict_get d k = Some v -> In v (map snd d).
Proof.
  induction d as [|[k' v'] d IH]; simpl; [discriminate|].
  destruct (String.eqb k k'); [intros [= ->]; auto | auto].
Qed.

Lemma dict_mem_In_key {V} (d : dict V) k : dict_mem d k = true -> In k (keys d).
Proof.
  unfold dict_mem. destruct (dict_get d k) eqn:E; [|discriminate].
  intros _. eapply dict_get_In_key, E.
Qed.

Lemma In_key_get {V} (d : dict V) k : In k (keys d) -> exists v, dict_get d k = Some v.
Proof.
  induction d as [|[k' v'] d IH]; simpl; [tauto|].
  intros [->|H].
  - rewrite String.eqb_refl. eauto.
  - destruct (String.eqb k k'); eauto.
Qed.

Lemma dict_get_In_pair {V} (d : dict V) k v : dict_get d k = Some v -> In (k, v) d.
Proof.
  induction d as [|[k' v'] d IH]; simpl; [discriminate|].
  destruct (String.eqb_spec k k') as [->|Hn]; [intros [= ->]; auto | auto].
Qed.

Lemma dict_get_set {V} (d : dict V) k v k' :
  dict_get (dict_set d k v) k' = if String.eqb k' k then Some v else dict_get d k'.
Proof.
  induction d as [|[k0 v0] d IH]; simpl.
  - reflexivity.
  - destruct (String.eqb_spec k k0) as [->|Hk]; simpl.
    + destruct (String.eqb k' k0); reflexivity.
    + destruct (String.eqb_spec k' k0) as [->|Hk'].
      * destruct (String.eqb_spec k0 k); [congruence | reflexivity].
      * exact IH.
Qed.

(** What [__init__] builds, for any forward table: a preset is mapped
    to the first name of the table that maps to it. *)
Lemma build_from_acc items : forall acc pp,
  dict_get
    (fold_left
       (fun (acc : dict string) '((el_name, pp_name) : string * string) =>
          if dict_mem acc pp_name then acc else dict_set acc pp_name el_name)
       items acc) pp
  = match dict_get acc pp with
    | Some e => Some e
    | None => option_map fst (find (fun kv => String.eqb pp (snd kv)) items)
    end.
Proof.
  induction items as [|[el p] items IH]; intros acc pp; simpl.
  - now destruct (dict_get acc pp).
  - rewrite IH. unfold dict_mem.
    destruct (dict_get acc p) eqn:Ep.
    + destruct (dict_get acc pp) eqn:Epp; [reflexivity|].
      destruct (String.eqb_spec pp p); [congruence | reflexivity].
    + rewrite dict_get_set.
      destruct (String.eqb_spec pp p) as [->|Hn].
      * now rewrite Ep.
      * reflexivity.
Qed.

(** X1.  [__init__] inverts any forward table with "first mapping wins":
    the reverse map sends a preset to the first ElevenLabs name, in
    table order, whose preset it is, and has no entry for a preset no
    name maps to. *)
Theorem reverse_map_first_wins (items : dict string) (pp : string) :
  dict_get (build_pp_to_el items) pp
  = option_map fst (find (fun kv => String.eqb pp (snd kv)) items).
Proof. exact (build_from_acc items [] pp). Qed.

Lemma presets_fixed :
  forallb (fun p => opt_eqb (get_personaplex_voice p) (Some p)
                    && opt_eqb (get_elevenlabs_voice p) (dict_get _pp_to_el p)
                    && truthy p)
          (keys PRESET_INFO) = true.
Proof. vm_compute. reflexivity. Qed.

Lemma names_fixed :
  forallb (fun n => opt_eqb (get_elevenlabs_voice n) (Some n))
          (keys ELEVENLABS_TO_PERSONAPLEX) = true.
Proof. vm_compute. reflexivity. Qed.

Lemma forward_values_are_presets :
  forallb (dict_mem PRESET_INFO) (map snd ELEVENLABS_TO_PERSONAPLEX) = true.
Proof. vm_compute. reflexivity. Qed.

Lemma reverse_values_are_names :
  forallb (dict_mem ELEVENLABS_TO_PERSONAPLEX) (map snd _pp_to_el) = true.
Proof. vm_compute. reflexivity. Qed.

Lemma preset_facts p :
  In p (keys PRESET_INFO) ->
  get_personaplex_voice p = Some p /\
  get_elevenlabs_voice p = dict_get _pp_to_el p /\
  truthy p = true.
Proof.
  intros H. pose proof presets_fixed as F. rewrite forallb_forall in F.
  specialize (F p H). apply andb_prop in F. destruct F as [F F3].
  apply andb_prop in F. destruct F as [F1 F2].
  repeat split; auto using opt_eqb_eq.
Qed.

Lemma resolved_is_preset name p :
  get_personaplex_voice name = Some p -> In p (keys PRESET_INFO).
Proof.
  intros H. unfold get_personaplex_voice in H.
  destruct (dict_mem PRESET_INFO (Py.upper name)) eqn:E.
  - injection H as <-. now apply dict_mem_In_key.
  - apply dict_get_In_value in H.
    pose proof forward_values_are_presets as F.
    rewrite forallb_forall in F. apply dict_mem_In_key, F, H.
Qed.

Lemma resolved_is_name name e :
  get_elevenlabs_voice name = Some e -> In e (keys ELEVENLABS_TO_PERSONAPLEX).
Proof.
  intros H. unfold get_elevenlabs_voice in H.
  destruct (dict_mem ELEVENLABS_TO_PERSONAPLEX (Py.lower name)) eqn:E.
  - injection H as <-. now apply dict_mem_In_key.
  - apply dict_get_In_value in H.
    pose proof reverse_values_are_names as F.
    rewrite forallb_forall in F. apply dict_mem_In_key, F, H.
Qed.

(** X2.  For an ASCII name, a preset returned by [get_personaplex_voice]
    is a key of [PRESET_INFO] and is its own look-up; an ElevenLabs name
    returned by [get_elevenlabs_voice] is a key of
    [ELEVENLABS_TO_PERSONAPLEX] and is its own look-up. *)
Theorem lookups_normalise (name : string) (Hascii : is_ascii name = true) :
  (forall p, get_personaplex_voice name = Some p ->
             In p (keys PRESET_INFO) /\ get_personaplex_voice p = Some p) /\
  (forall e, get_elevenlabs_voice name = Some e ->
             In e (keys ELEVENLABS_TO_PERSONAPLEX) /\
             get_elevenlabs_voice e = Some e).
Proof.
  split.
  - intros p H. pose proof (resolved_is_preset name p H) as Hin.
    split; [exact Hin | now apply preset_facts].
  - intros e H. pose proof (resolved_is_name name e H) as Hin.
    split; [exact Hin|].
    pose proof names_fixed as F. rewrite forallb_forall in F.
    apply opt_eqb_eq, F, Hin.
Qed.

Lemma lookups_normalise_witness :
  In "NATF3" (keys PRESET_INFO) /\ get_personaplex_voice "NATF3" = Some "NATF3".
Proof.
  apply (proj1 (lookups_normalise "Bella" eq_refl) "NATF3"). reflexivity.
Defined.

End VoiceLookupFacts.

(* ================================================================== *)
(** ** Voice bridge: case, info records, listings and suggestions *)

Module VoiceInfoFacts.
Import Py VoiceBridge VoiceBridgeInfo Props VoiceBridgeFacts VoiceLookupFacts.
Local Open Scope list_scope.

Lemma case_chars c :
  upper_char (upper_char c) = upper_char c /\
  upper_char (lower_char c) = upper_char c /\
  lower_char (upper_char c) = lower_char c /\
  lower_char (lower_char c) = lower_char c.
Proof.
  destruct c as [b0 b1 b2 b3 b4 b5 b6 b7].
  destruct b0, b1, b2, b3, b4, b5, b6, b7; repeat split; reflexivity.
Qed.

Lemma case_strings s :
  Py.upper (Py.upper s) = Py.upper s /\
  Py.upper (Py.lower s) = Py.upper s /\
  Py.lower (Py.upper s) = Py.lower s /\
  Py.lower (Py.lower s) = Py.lower s.
Proof.
  unfold Py.upper, Py.lower.
  induction s as [|c s (I1 & I2 & I3 & I4)]; simpl; [auto|].
  destruct (case_chars c) as (C1 & C2 & C3 & C4).
  rewrite C1, C2, C3, C4, I1, I2, I3, I4. auto.
Qed.

(** X3.  On ASCII names both look-ups ignore case: the upper-cased and
    the lower-cased name give the result of the name itself. *)
Theorem lookups_ignore_case (name : string) (Hascii : is_ascii name = true) :
  get_personaplex_voice (Py.upper name) = get_personaplex_voice name /\
  get_personaplex_voice (Py.lower name) = get_personaplex_voice name /\
  get_elevenlabs_voice (Py.upper name) = get_elevenlabs_voice name /\
  get_elevenlabs_voice (Py.lower name) = get_elevenlabs_voice name.
Proof.
  destruct (case_strings name) as (C1 & C2 & C3 & C4).
  unfold get_personaplex_voice, get_elevenlabs_voice.
  now rewrite C1, C2, C3, C4.
Qed.

Lemma lookups_ignore_case_witness :
  get_personaplex_voice (Py.upper "RaChEl") = get_personaplex_voice "RaChEl".
Proof.
  apply (lookups_ignore_case "RaChEl"). reflexivity.
Defined.

(** X4.  [get_voice_info] finds a record exactly when the name resolves
    to a preset.  The record then carries the preset, its file name
    (preset followed by [.pt]), the three fields of [PRESET_INFO] and the
    mapped ElevenLabs name, and it is one of the entries of
    [get_all_mappings]. *)
Theorem voice_info_of_resolved_name (name : string)
  (Hascii : is_ascii name = true) :
  (get_personaplex_voice name = None -> get_voice_info name = None) /\
  (forall p, get_personaplex_voice name = Some p ->
     exists i info,
       dict_get PRESET_INFO p = Some i /\
       get_voice_info name = Some info /\
       dict_get info "personaplex_preset" = Some (Some p) /\
       dict_get info "personaplex_file" = Some (Some (p ++ ".pt")%string) /\
       dict_get info "elevenlabs_name" = Some (get_elevenlabs_voice p) /\
       dict_get info "gender" = Some (Some (gender i)) /\
       dict_get info "category" = Some (Some (category i)) /\
       dict_get info "character" = Some (Some (character i)) /\
       In info get_all_mappings).
Proof.
  split.
  - intros H. unfold get_voice_info. now rewrite H.
  - intros p H.
    pose proof (resolved_is_preset name p H) as Hin.
    destruct (preset_facts p Hin) as (_ & Hel & Htr).
    destruct (In_key_get _ _ Hin) as (i & Hi).
    exists i, (with_names (info_dict i) p (get_elevenlabs_voice p)).
    split; [exact Hi|].
    split; [unfold get_voice_info; now rewrite H, Htr, Hi|].
    repeat (split; [reflexivity|]).
    rewrite Hel. unfold get_all_mappings.
    apply (in_map (fun '(pp_name, i) =>
                     with_names (info_dict i) pp_name (dict_get _pp_to_el pp_name))
                  PRESET_INFO (p, i)).
    now apply dict_get_In_pair.
Qed.

Lemma voice_info_of_resolved_name_witness :
  exists i info,
    dict_get PRESET_INFO "NATM1" = Some i /\
    get_voice_info "adam" = Some info /\
    dict_get info "personaplex_preset" = Some (Some "NATM1"%string) /\
    dict_get info "personaplex_file" = Some (Some ("NATM1" ++ ".pt")%string) /\
    dict_get info "elevenlabs_name" = Some (get_elevenlabs_voice "NATM1") /\
    dict_get info "gender" = Some (Some (gender i)) /\
    dict_get info "category" = Some (Some (category i)) /\
    dict_get info "character" = Some (Some (character i)) /\
    In info get_all_mappings.
Proof.
  apply (proj2 (voice_info_of_resolved_name "adam" eq_refl) "NATM1"). reflexivity.
Defined.

Lemma field_is_eq key v m : field_is key v m = true -> dict_get m key = Some (Some v).
Proof.
  unfold field_is. destruct (dict_get m key) as [[x|]|]; try discriminate.
  intros H. apply String.eqb_eq in H. now subst.
Qed.

Lemma filter_none {A} (f : A -> bool) l :
  (forall x, In x l -> f x = false) -> filter f l = [].
Proof.
  induction l as [|x l IH]; intros H; simpl; [reflexivity|].
  rewrite (H x) by (left; reflexivity). apply IH. intros y Hy. apply H. now right.
Qed.

Lemma genders_of_mappings :
  forallb (fun m => field_is "gender" "female" m || field_is "gender" "male" m)
          get_all_mappings = true.
Proof. vm_compute. reflexivity. Qed.

Lemma categories_of_mappings :
  forallb (fun m => field_is "category" "natural" m || field_is "category" "variety" m)
          get_all_mappings = true.
Proof. vm_compute. reflexivity. Qed.

Lemma filter_by_field key a b x :
  forallb (fun m => field_is key a m || field_is key b m) get_all_mappings = true ->
  x <> a -> x <> b ->
  filter (field_is key x) get_all_mappings = [].
Proof.
  intros F Ha Hb. apply filter_none. intros m Hm.
  rewrite forallb_forall in F. specialize (F m Hm).
  destruct (field_is key x m) eqn:E; [|reflexivity].
  apply field_is_eq in E.
  apply orb_prop in F. destruct F as [F|F]; apply field_is_eq in F; congruence.
Qed.

(** X5.  The two filtered listings.  Every entry of
    [get_voices_by_gender g] is an entry of [get_all_mappings] whose
    gender is [g] lower-cased, and likewise for the category; a gender
    other than female or male, or a category other than natural or
    variety, gives the empty list; and the eighteen mappings split into
    nine female and nine male, and into eight natural and ten variety. *)
Theorem filtered_listings (g : string) (Hascii : is_ascii g = true) :
  (forall m, In m (get_voices_by_gender g) ->
             In m get_all_mappings /\
             dict_get m "gender" = Some (Some (Py.lower g))) /\
  (forall m, In m (get_voices_by_category g) ->
             In m get_all_mappings /\
             dict_get m "category" = Some (Some (Py.lower g))) /\
  (Py.lower g <> "female"%string -> Py.lower g <> "male"%string ->
   get_voices_by_gender g = []) /\
  (Py.lower g <> "natural"%string -> Py.lower g <> "variety"%string ->
   get_voices_by_category g = []) /\
  List.length (get_voices_by_gender "female")
  + List.length (get_voices_by_gender "male") = List.length get_all_mappings /\
  List.length (get_voices_by_category "natural")
  + List.length (get_voices_by_category "variety") = List.length get_all_mappings.
Proof.
  unfold get_voices_by_gender, get_voices_by_category.
  split; [|split; [|split; [|split; [|split]]]].
  - intros m H. apply filter_In in H. destruct H as [H1 H2].
    split; [exact H1 | now apply field_is_eq].
  - intros m H. apply filter_In in H. destruct H as [H1 H2].
    split; [exact H1 | now apply field_is_eq].
  - apply filter_by_field, genders_of_mappings.
  - apply filter_by_field, categories_of_mappings.
  - vm_compute. reflexivity.
  - vm_compute. reflexivity.
Qed.

Lemma filtered_listings_witness : get_voices_by_gender "Robot" = [].
Proof.
  destruct (filtered_listings "Robot" eq_refl) as (_ & _ & H & _).
  apply H; vm_compute; discriminate.
Defined.

(** *** suggest_voice *)

Lemma max_from_In d : forall b bv, In (max_from b bv d) (b :: keys d).
Proof.
  induction d as [|[k v] d IH]; intros b bv; simpl; [auto|].
  destruct (bv <? v)%nat.
  - destruct (IH k v) as [H|H]; simpl; auto.
  - destruct (IH b bv) as [H|H]; simpl; auto.
Qed.

Lemma max_key_In d v : max_key d = Some v -> In v (keys d).
Proof.
  destruct d as [|[k n] d]; simpl; [discriminate|].
  intros [= <-]. apply max_from_In.
Qed.

Lemma keys_dict_set {V} (d : dict V) k v x :
  In x (keys (dict_set d k v)) -> x = k \/ In x (keys d).
Proof.
  induction d as [|[k0 v0] d IH]; simpl.
  - intros [H|[]]; auto.
  - destruct (String.eqb k k0); simpl; intros [H|H]; auto.
    destruct (IH H); auto.
Qed.

Lemma keys_bumps voices : forall c x,
  In x (keys (fold_left bump voices c)) -> In x voices \/ In x (keys c).
Proof.
  induction voices as [|v voices IH]; intros c x H; simpl in *; [auto|].
  destruct (IH _ _ H) as [H1|H1]; [auto|].
  unfold bump in H1. apply keys_dict_set in H1. destruct H1; auto.
Qed.

Lemma keys_count desc (km : dict (list string)) : forall c x,
  In x (keys (fold_left
                (fun (candidates : dict nat) '((keyword, voices) : string * list string) =>
                   if str_contains keyword desc
                   then fold_left bump voices candidates
                   else candidates) km c)) ->
  In x (flat_map snd km) \/ In x (keys c).
Proof.
  induction km as [|[kw vs] km IH]; intros c x H; simpl in *; [auto|].
  destruct (IH _ _ H) as [H1|H1]; [left; apply in_or_app; auto|].
  destruct (str_contains kw desc); [|auto].
  destruct (keys_bumps _ _ _ H1); [left; apply in_or_app; auto | auto].
Qed.

Lemma keyword_voices_are_presets :
  forallb (dict_mem PRESET_INFO) (flat_map snd keyword_map) = true.
Proof. vm_compute. reflexivity. Qed.

Lemma candidates_are_presets desc x :
  In x (keys (count_candidates desc)) -> In x (keys PRESET_INFO).
Proof.
  intros H. destruct (keys_count desc keyword_map [] x H) as [H1|[]].
  pose proof keyword_voices_are_presets as F. rewrite forallb_forall in F.
  apply dict_mem_In_key, F, H1.
Qed.

Lemma keys_filter {V} (f : string * V -> bool) (d : dict V) x :
  In x (keys (filter f d)) -> exists v, In (x, v) d /\ f (x, v) = true.
Proof.
  unfold keys. intros H. apply in_map_iff in H. destruct H as ([k v] & <- & H).
  apply filter_In in H. simpl. eauto.
Qed.

Lemma In_pair_key {V} (d : dict V) k v : In (k, v) d -> In k (keys d).
Proof. intros H. apply (in_map fst) in H. exact H. Qed.

Lemma preset_name_gender :
  forallb (fun kv =>
             implb (startswith2 "NATF" "VARF" (fst kv))
                   (String.eqb (gender (snd kv)) "female")
             && implb (startswith2 "NATM" "VARM" (fst kv))
                      (String.eqb (gender (snd kv)) "male"))
          PRESET_INFO = true.
Proof. vm_compute. reflexivity. Qed.

(** The preset chosen, a preset of the wanted kind. *)
Lemma filtered_choice desc v :
  max_key (filtered_candidates desc) = Some v ->
  In v (keys PRESET_INFO) /\
  (is_female desc = true -> startswith2 "NATF" "VARF" v = true) /\
  (is_female desc = false -> is_male desc = true ->
   startswith2 "NATM" "VARM" v = true).
Proof.
  intros H. apply max_key_In in H. unfold filtered_candidates in H.
  destruct (is_female desc) eqn:Ef; [|destruct (is_male desc) eqn:Em].
  - apply keys_filter in H. destruct H as (n & Hin & Hf). simpl in Hf.
    split; [eapply candidates_are_presets, In_pair_key, Hin|].
    split; [auto | discriminate].
  - apply keys_filter in H. destruct H as (n & Hin & Hf). simpl in Hf.
    split; [eapply candidates_are_presets, In_pair_key, Hin|].
    split; [discriminate | auto].
  - split; [exact (candidates_are_presets desc v H)|].
    split; discriminate.
Qed.

(** X6.  [suggest_voice] always suggests a voice, and a preset of
    [PRESET_INFO] at that.  When the lower-cased description contains
    one of the female words the preset is a female one; when it contains
    none of them but one of the male words the preset is a male one. *)
Theorem suggest_voice_total (description : string)
  (Hascii : is_ascii description = true) :
  exists v i,
    suggest_voice description = Some v /\
    dict_get PRESET_INFO v = Some i /\
    (is_female (Py.lower description) = true -> gender i = "female"%string) /\
    (is_female (Py.lower description) = false ->
     is_male (Py.lower description) = true -> gender i = "male"%string).
Proof.
  set (desc := Py.lower description).
  assert (H : exists v,
             suggest_voice description = Some v /\
             In v (keys PRESET_INFO) /\
             (is_female desc = true -> startswith2 "NATF" "VARF" v = true) /\
             (is_female desc = false -> is_male desc = true ->
              startswith2 "NATM" "VARM" v = true)).
  { unfold suggest_voice. fold desc.
    destruct (max_key (filtered_candidates desc)) as [v|] eqn:E.
    - exists v. split; [reflexivity | now apply filtered_choice].
    - destruct (is_female desc) eqn:Ef; [|destruct (is_male desc) eqn:Em];
        eexists; (split; [reflexivity|]);
        (split; [vm_compute; tauto|]); split; intros; try discriminate; reflexivity. }
  destruct H as (v & Hs & Hin & Hf & Hm).
  destruct (In_key_get _ _ Hin) as (i & Hi).
  exists v, i. split; [exact Hs|]. split; [exact Hi|].
  pose proof preset_name_gender as F. rewrite forallb_forall in F.
  specialize (F (v, i) (dict_get_In_pair _ _ _ Hi)). simpl in F.
  apply andb_prop in F. destruct F as [F1 F2].
  split.
  - intros Hd. rewrite (Hf Hd) in F1. simpl in F1. now apply String.eqb_eq.
  - intros Hd1 Hd2. rewrite (Hm Hd1 Hd2) in F2. simpl in F2. now apply String.eqb_eq.
Qed.

Lemma suggest_voice_total_witness :
  exists v i,
    suggest_voice "deep male narrator" = Some v /\
    dict_get PRESET_INFO v = Some i /\
    (is_female (Py.lower "deep male narrator") = true ->
     gender i = "female"%string) /\
    (is_female (Py.lower "deep male narrator") = false ->
     is_male (Py.lower "deep male narrator") = true -> gender i = "male"%string).
Proof.
  apply (suggest_voice_total "deep male narrator"). reflexivity.
Defined.

(** The example of the command-line help. *)
Example suggest_warm_friendly_female :
  suggest_voice "warm friendly female voice" = Some "NATF2"%string.
Proof. vm_compute. reflexivity. Qed.

End VoiceInfoFacts.

(* ================================================================== *)
(** ** Voice bridge: the two look-ups together *)

Module VoicePairFacts.
Import Py VoiceBridge VoiceBridgeInfo Props VoiceBridgeFacts VoiceLookupFacts
       VoiceInfoFacts.
Local Open Scope list_scope.

Lemma presets_lower_unmapped :
  forallb (fun p => negb (dict_mem ELEVENLABS_TO_PERSONAPLEX (Py.lower p)))
          (keys PRESET_INFO) = true.
Proof. vm_compute. reflexivity. Qed.

Lemma reverse_keys_are_presets :
  forallb (dict_mem PRESET_INFO) (keys _pp_to_el) = true.
Proof. vm_compute. reflexivity. Qed.

(** The pair of a preset of [PRESET_INFO]. *)
Lemma preset_pair p :
  In p (keys PRESET_INFO) ->
  exists e, get_elevenlabs_voice p = Some e /\ get_personaplex_voice e = Some p.
Proof.
  intros Hin.
  pose proof every_preset_mapped as M. rewrite forallb_forall in M.
  pose proof pp_round_trip_all as R. rewrite forallb_forall in R.
  specialize (M p Hin). specialize (R p Hin). rewrite M in R. cbn in R.
  apply opt_eqb_eq in R.
  destruct (get_elevenlabs_voice p) as [e|]; [|discriminate].
  exists e. auto.
Qed.

(** The pair of a key of [ELEVENLABS_TO_PERSONAPLEX]. *)
Lemma name_pair n :
  In n (keys ELEVENLABS_TO_PERSONAPLEX) ->
  exists p, get_personaplex_voice n = Some p /\ get_elevenlabs_voice p = Some n.
Proof.
  intros Hin.
  pose proof el_round_trip_all as R. rewrite forallb_forall in R.
  specialize (R n Hin). apply opt_eqb_eq in R.
  destruct (get_personaplex_voice n) as [p|]; [|discriminate].
  exists p. auto.
Qed.

(** X7.  The two look-ups agree on every ASCII name.  A name for which
    one look-up finds something is found by the other as well, and the
    preset [p] and the ElevenLabs name [e] found for it are each
    other's images: the preset of [e] is [p] and the ElevenLabs name of
    [p] is [e]. *)
Theorem lookups_agree (name : string) (Hascii : is_ascii name = true) :
  (get_personaplex_voice name = None <-> get_elevenlabs_voice name = None) /\
  (forall p e,
     get_personaplex_voice name = Some p ->
     get_elevenlabs_voice name = Some e ->
     get_elevenlabs_voice p = Some e /\ get_personaplex_voice e = Some p).
Proof.
  destruct (case_strings name) as (C1 & C2 & C3 & C4).
  assert (H : (get_personaplex_voice name = None /\
               get_elevenlabs_voice name = None) \/
              exists p e, get_personaplex_voice name = Some p /\
                          get_elevenlabs_voice name = Some e /\
                          get_elevenlabs_voice p = Some e /\
                          get_personaplex_voice e = Some p).
  { destruct (dict_mem PRESET_INFO (Py.upper name)) eqn:Eu.
    - (* the name is a preset, in some case *)
      pose proof (dict_mem_In_key _ _ Eu) as Hin.
      destruct (preset_pair _ Hin) as (e & He & Hp).
      destruct (preset_facts _ Hin) as (_ & Hel & _).
      pose proof presets_lower_unmapped as U. rewrite forallb_forall in U.
      specialize (U _ Hin). rewrite C3 in U. apply negb_true_iff in U.
      right. exists (Py.upper name), e.
      split; [unfold get_personaplex_voice; now rewrite Eu|].
      split; [|auto].
      unfold get_elevenlabs_voice. rewrite U. now rewrite <- Hel.
    - destruct (dict_mem ELEVENLABS_TO_PERSONAPLEX (Py.lower name)) eqn:El.
      + (* the name is an ElevenLabs name, in some case *)
        pose proof (dict_mem_In_key _ _ El) as Hin.
        destruct (name_pair _ Hin) as (p & Hp & He).
        right. exists p, (Py.lower name).
        split.
        * unfold get_personaplex_voice in *. rewrite C2 in Hp.
          rewrite Eu in *. now rewrite C4 in Hp.
        * split; [unfold get_elevenlabs_voice; now rewrite El | auto].
      + left. split.
        * unfold get_personaplex_voice. rewrite Eu.
          unfold dict_mem in El.
          now destruct (dict_get ELEVENLABS_TO_PERSONAPLEX (Py.lower name)).
        * unfold get_elevenlabs_voice. rewrite El.
          destruct (dict_get _pp_to_el (Py.upper name)) as [e|] eqn:Er;
            [|reflexivity].
          apply dict_get_In_key in Er.
          pose proof reverse_keys_are_presets as K. rewrite forallb_forall in K.
          specialize (K _ Er). congruence. }
  destruct H as [(H1 & H2) | (p & e & H1 & H2 & H3 & H4)].
  - split; [tauto|]. intros p e Hp. congruence.
  - split; [split; congruence|].
    intros p' e' Hp He. split; congruence.
Qed.

Lemma lookups_agree_witness :
  get_elevenlabs_voice "NATF2" = Some "rachel" /\
  get_personaplex_voice "rachel" = Some "NATF2".
Proof.
  apply (proj2 (lookups_agree "Rachel" eq_refl) "NATF2" "rachel"); reflexivity.
Defined.

(** *** suggest_voice: where the suggestion comes from *)

Lemma keys_count_reason desc (km : dict (list string)) : forall c x,
  In x (keys (fold_left
                (fun (candidates : dict nat) '((keyword, voices) : string * list string) =>
                   if str_contains keyword desc
                   then fold_left bump voices candidates
                   else candidates) km c)) ->
  (exists keyword voices,
     In (keyword, voices) km /\ str_contains keyword desc = true /\
     In x voices) \/ In x (keys c).
Proof.
  induction km as [|[kw vs] km IH]; intros c x H; simpl in *; [auto|].
  destruct (IH _ _ H) as [(k & v & Hin & Hc & Hx) | H1].
  - left. exists k, v. auto.
  - destruct (str_contains kw desc) eqn:E; [|auto].
    destruct (keys_bumps _ _ _ H1) as [H2|H2]; [|auto].
    left. exists kw, vs. auto.
Qed.

(** X8.  Where a suggestion comes from.  The voice [suggest_voice]
    returns for an ASCII description is listed in [keyword_map] under a
    keyword that occurs in the lower-cased description; or no candidate
    was left and it is the default: [NATF2], or [NATM1] when a male
    word occurs and no female word does.  In particular a description
    without any keyword gets the default. *)
Theorem suggestion_has_a_reason (description : string)
  (Hascii : is_ascii description = true) :
  let desc := Py.lower description in
  let default :=
    if is_female desc then "NATF2"%string
    else if is_male desc then "NATM1"%string else "NATF2"%string in
  (forall v, suggest_voice description = Some v ->
     (exists keyword voices,
        In (keyword, voices) keyword_map /\
        str_contains keyword desc = true /\ In v voices) \/
     (filtered_candidates desc = [] /\ v = default)) /\
  (forallb (fun keyword => negb (str_contains keyword desc))
           (keys keyword_map) = true ->
   suggest_voice description = Some default).
Proof.
  intros desc default. split.
  - intros v H. unfold suggest_voice in H. fold desc in H.
    destruct (max_key (filtered_candidates desc)) as [w|] eqn:E.
    + injection H as <-. left.
      apply max_key_In in E.
      assert (Hk : In w (keys (count_candidates desc))).
      { unfold filtered_candidates in E.
        destruct (is_female desc); [|destruct (is_male desc)];
          try exact E;
          apply keys_filter in E; destruct E as (n & Hin & _);
          eapply In_pair_key, Hin. }
      destruct (keys_count_reason desc keyword_map [] w Hk) as [Hr|[]].
      exact Hr.
    + right. split.
      * destruct (filtered_candidates desc) as [|[k n] r]; [reflexivity|].
        discriminate E.
      * unfold default.
        destruct (is_female desc); [|destruct (is_male desc)]; congruence.
  - intros Hnone.
    assert (Hc : count_candidates desc = []).
    { unfold count_candidates.
      assert (G : forall km c,
                 forallb (fun keyword => negb (str_contains keyword desc))
                         (keys km) = true ->
                 fold_left
                   (fun (candidates : dict nat)
                        '((keyword, voices) : string * list string) =>
                      if str_contains keyword desc
                      then fold_left bump voices candidates
                      else candidates) km c = c).
      { induction km as [|[kw vs] km IH]; intros c Hk; simpl in *; auto.
        apply andb_prop in Hk. destruct Hk as [Hk1 Hk2].
        apply negb_true_iff in Hk1. rewrite Hk1. now apply IH. }
      now apply G. }
    unfold suggest_voice. fold desc.
    unfold filtered_candidates. rewrite Hc. unfold default.
    destruct (is_female desc); [|destruct (is_male desc)]; reflexivity.
Qed.

Lemma suggestion_has_a_reason_witness :
  suggest_voice "a robot" = Some "NATF2"%string.
Proof.
  apply (proj2 (suggestion_has_a_reason "a robot" eq_refl)).
  vm_compute; reflexivity.
Defined.

End VoicePairFacts.

(* ================================================================== *)
(** ** Sessions: the returned value and what is left behind *)

Module ResultFacts.
Import Py Json Connect Props Props2 StepTactics SessionFacts.
Local Open Scope list_scope.

Local Opaque handle_text truthy_float dumps config Py.upper shown_prompt.

Lemma step_arguments s e :
  server_url (step s e) = server_url s /\ arg_voice (step s e) = arg_voice s.
Proof.
  destruct e; unfold_step; cbn; cases; auto.
Qed.

Lemma step_returned_ok s e : Inv s -> returned_ok s -> returned_ok (step s e).
Proof.
  unfold returned_ok. intros HI H.
  assert (Hh : ph s = Connecting \/ ph s = Configuring -> handlers s = false).
  { intros [Hp|Hp].
    - now destruct (inv_connecting HI Hp) as (_ & ? & _).
    - now destruct (inv_configuring HI Hp). }
  destruct (ph s) eqn:E.
  5: { rewrite (step_returned s e r E). unfold result_ok in *.
       rewrite step_limited.
       destruct (step_arguments s e) as (-> & ->).
       destruct (step_static s e) as (_ & -> & _).
       assert (Hh' : handlers (step s e) = handlers s).
       { destruct (step_wire s e)
           as [(_ & Hh') | [(Hp & _) | (c & Hp & _)]];
           [exact Hh' | congruence | congruence]. }
       rewrite Hh'. exact H. }
  1, 2: specialize (Hh (ltac:(auto))).
  all: clear H; unfold result_ok, limited;
    destruct e; unfold_step; cbn; rewrite ?E; cbn; cases;
    repeat split; intros; try discriminate; try congruence;
    try tauto; try (intuition congruence).
Qed.

Lemma exec_returned_ok evs :
  forall s, Inv s -> returned_ok s -> returned_ok (exec s evs).
Proof.
  induction evs as [|e evs IH]; intros s HI H; simpl; auto.
  apply IH; [now apply step_inv | now apply step_returned_ok].
Qed.

Lemma exec_arguments evs : forall s,
  server_url (exec s evs) = server_url s /\
  arg_voice (exec s evs) = arg_voice s /\
  text_prompt (exec s evs) = text_prompt s.
Proof.
  induction evs as [|e evs IH]; intros s; simpl; auto.
  destruct (IH (step s e)) as (-> & -> & ->).
  destruct (step_arguments s e) as (-> & ->).
  destruct (step_static s e) as (_ & -> & _). auto.
Qed.

Local Transparent shown_prompt.

Lemma cp_length_app a b : cp_length (a ++ b) = cp_length a + cp_length b.
Proof.
  induction a as [|c a IH]; simpl; [reflexivity|]. rewrite IH. lia.
Qed.

Lemma cp_take_length : forall s n, cp_length (cp_take n s) <= n.
Proof.
  induction s as [|c s IH]; intros n; simpl; [lia|].
  destruct (is_continuation c) eqn:E; simpl; rewrite ?E.
  - specialize (IH n). lia.
  - destruct n as [|n]; simpl; rewrite ?E; [lia|]. specialize (IH n). lia.
Qed.

Lemma shown_prompt_length t : cp_length (shown_prompt t) <= 103.
Proof.
  unfold shown_prompt. destruct (100 <? cp_length t)%nat eqn:E.
  - rewrite cp_length_app. pose proof (cp_take_length t 100).
    change (cp_length "...") with 3. lia.
  - apply Nat.ltb_ge in E. lia.
Qed.

Lemma shown_prompt_short t : cp_length t <= 100 -> shown_prompt t = t.
Proof.
  intros H. unfold shown_prompt.
  destruct (100 <? cp_length t)%nat eqn:E; [|reflexivity].
  apply Nat.ltb_lt in E. lia.
Qed.

(** A prompt of 51 two-byte characters has 102 bytes and is returned
    as it is. *)
Example shown_prompt_counts_characters :
  let e_acute := String (ascii_of_nat 195) (String (ascii_of_nat 169) EmptyString) in
  let t := String.concat EmptyString (repeat e_acute 51) in
  String.length t = 102 /\ cp_length t = 51 /\ shown_prompt t = t.
Proof. vm_compute. repeat split. Qed.

Local Opaque shown_prompt.

(** X9.  The value returned by [clawdbot_connect], whatever the
    schedule.  Its status is never the initial [connected]; it has an
    [error] entry exactly when the status is [error]; [completed]
    occurs only with a non-zero duration limit and [disconnected] only
    without one; [timeout] occurs with such a limit, or else in a
    session that never came to stream (a [TimeoutError] of the
    connection attempt or of the first send).  The server and the voice
    are the arguments as passed (the voice is not upper-cased); the text
    prompt is the argument itself when it has at most 100 characters
    and never has more than 103. *)
Theorem returned_result url v t d evs r
  (Hret : returned (clawdbot_connect url v t d evs) = Some r) :
  r_status r <> connected /\
  (r_status r = error <-> r_error r <> None) /\
  (r_status r = completed -> truthy_float d = true) /\
  (r_status r = disconnected -> truthy_float d = false) /\
  (r_status r = timeout ->
   truthy_float d = true \/
   handlers (clawdbot_connect url v t d evs) = false) /\
  r_server r = url /\
  r_voice r = v /\
  r_text_prompt r = shown_prompt t /\
  (cp_length t <= 100 -> r_text_prompt r = t) /\
  cp_length (r_text_prompt r) <= 103.
Proof.
  set (s := clawdbot_connect url v t d evs) in *.
  assert (H : returned_ok s)
    by (apply exec_returned_ok; [apply start_inv | exact I]).
  unfold returned in Hret. unfold returned_ok in H.
  destruct (ph s) eqn:E; try discriminate. injection Hret as ->.
  destruct H as (H1 & H2 & H3 & H4 & H4' & H5 & H6 & H7).
  destruct (exec_arguments evs (start url v t d)) as (Hu & Hv & Ht).
  fold (clawdbot_connect url v t d evs) in Hu, Hv, Ht. fold s in Hu, Hv, Ht.
  assert (Hl : limited s = truthy_float d).
  { unfold s, clawdbot_connect. now rewrite exec_limited. }
  rewrite Hl in H3, H4, H4'. rewrite Hu in H5. rewrite Hv in H6.
  rewrite Ht in H7. cbn in H5, H6, H7.
  repeat (split; [assumption|]).
  split.
  - intros Hs. rewrite H7. now apply shown_prompt_short.
  - rewrite H7. apply shown_prompt_length.
Qed.

Local Transparent truthy_float dumps config Py.upper shown_prompt.

Lemma returned_result_witness :
  r_status (mkResult disconnected localhost "NATF2" EmptyString None) <> connected.
Proof.
  apply (returned_result localhost "NATF2" EmptyString None
           (EvConnect None :: EvConfigSent None :: dropped_connection)
           (mkResult disconnected localhost "NATF2" EmptyString None)).
  vm_compute; reflexivity.
Defined.

Local Opaque truthy_float dumps config Py.upper.

End ResultFacts.

(* ================================================================== *)
(** ** Sessions: what the pumps carry *)

Module CarryFacts.
Import Py Json Connect Props Props2 StepTactics SessionFacts.
Local Open Scope list_scope.

Local Opaque handle_text truthy_float dumps config Py.upper.

Lemma subseq_refl {A} (l : list A) : subseq l l.
Proof. induction l; [apply subseq_nil | now apply subseq_take]. Qed.

Lemma subseq_app_r {A} (l1 l2 l3 : list A) : subseq l1 l2 -> subseq l1 (l2 ++ l3).
Proof.
  intros H. induction H; simpl.
  - induction l3; [apply subseq_nil | now apply subseq_skip].
  - now apply subseq_skip.
  - now apply subseq_take.
Qed.

Lemma subseq_snoc {A} (l1 l2 : list A) x : subseq l1 l2 -> subseq (l1 ++ [x]) (l2 ++ [x]).
Proof.
  intros H. induction H; simpl.
  - apply subseq_take, subseq_nil.
  - now apply subseq_skip.
  - now apply subseq_take.
Qed.

Lemma subseq_app {A} (l1 l2 x : list A) : subseq l1 l2 -> subseq (l1 ++ x) (l2 ++ x).
Proof.
  intros H. induction H; simpl.
  - apply subseq_refl.
  - now apply subseq_skip.
  - now apply subseq_take.
Qed.

Lemma subseq_drop {A} (pre post : list A) c : subseq (pre ++ post) (pre ++ c :: post).
Proof.
  induction pre; simpl; [apply subseq_skip, subseq_refl | now apply subseq_take].
Qed.

Lemma subseq_trans {A} (l1 l2 l3 : list A) : subseq l1 l2 -> subseq l2 l3 -> subseq l1 l3.
Proof.
  intros H12 H23. revert l1 H12.
  induction H23; intros l0 H12.
  - exact H12.
  - apply subseq_skip. auto.
  - inversion H12; subst; [apply subseq_skip | apply subseq_take]; auto.
Qed.

Lemma subseq_length {A} (l1 l2 : list A) : subseq l1 l2 -> List.length l1 <= List.length l2.
Proof. induction 1; simpl; lia. Qed.

Lemma subseq_In {A} (l1 l2 : list A) x : subseq l1 l2 -> In x l1 -> In x l2.
Proof.
  induction 1; simpl; intros H1; auto.
  destruct H1; auto.
Qed.

Lemma subseq_pre {A} (pre l1 l2 : list A) : subseq l1 l2 -> subseq (pre ++ l1) (pre ++ l2).
Proof. intros H. induction pre; simpl; [exact H | now apply subseq_take]. Qed.

Lemma subseq_grow {A} (l x : list A) : subseq l (l ++ x).
Proof. apply subseq_app_r, subseq_refl. Qed.

(** *** The downlink *)

Lemma step_played_exact s e :
  played (step s e) =
  played s ++ match ph s, down s with
              | Streaming, DownWaiting => received_of e
              | _, _ => []
              end.
Proof.
  destruct e; unfold_step; cbn; cases; rewrite ?app_nil_r; auto.
Qed.

Lemma exec_played evs : forall s pre,
  subseq (played s) pre ->
  subseq (played (exec s evs)) (pre ++ received evs).
Proof.
  induction evs as [|e evs IH]; intros s pre H; simpl.
  - now rewrite app_nil_r.
  - unfold received in *. simpl. rewrite app_assoc. apply IH.
    rewrite step_played_exact.
    destruct (ph s), (down s);
      first [ now apply subseq_app
            | rewrite (app_nil_r (played s)); now apply subseq_app_r ].
Qed.

(** X10.  What is written to the output stream is a subsequence of the
    binary messages the connection delivered, in the order of their
    arrival: nothing is played twice, out of order or without having
    been received.  While the downlink pump waits in a streaming
    session a binary message that arrives is written at once, as the
    last block. *)
Theorem playback_in_order url v t d evs :
  let s := clawdbot_connect url v t d evs in
  subseq (played s) (received evs) /\
  List.length (played s) <= List.length (received evs) /\
  (forall b, ph s = Streaming -> down s = DownWaiting ->
             played (step s (EvRecv (RecvBytes b))) = played s ++ [b]).
Proof.
  intros s.
  assert (H : subseq (played s) (received evs)).
  { apply (exec_played evs (start url v t d) []). constructor. }
  split; [exact H|]. split; [now apply subseq_length|].
  intros b Hp Hd. rewrite step_played_exact, Hp, Hd. reflexivity.
Qed.


Lemma playback_in_order_witness :
  played (step streaming_session (EvRecv (RecvBytes silence)))
  = played streaming_session ++ [silence].
Proof.
  apply (proj2 (proj2 (playback_in_order localhost "NATF2" EmptyString None
                         [EvConnect None; EvConfigSent None])) silence);
    reflexivity.
Defined.

(** *** The uplink *)

Lemma audio_frames_app w1 w2 :
  audio_frames (w1 ++ w2) = audio_frames w1 ++ audio_frames w2.
Proof.
  induction w1 as [|[x|b] w1 IH]; simpl; auto. now rewrite IH.
Qed.

(** A step moves blocks along (queue, send in progress, wire), appends
    a captured block at the end, or gives up a block. *)
Lemma step_uplink s e :
  subseq (uplink_blocks (step s e)) (uplink_blocks s ++ captured_of e).
Proof.
  unfold uplink_blocks, in_flight.
  destruct e; unfold_step; cbn; cases; (repeat match goal with
            | E : AsyncQueue._queue _ = _ |- _ => rewrite E in *; clear E
            | E : UpSending _ = UpSending _ |- _ => injection E as ->
            end;
     rewrite ?audio_frames_app, ?app_nil_r; cbn [audio_frames app];
     rewrite <- ?app_assoc; cbn [app]; rewrite ?app_nil_r);
    auto 6 using subseq_refl, subseq_pre, subseq_grow, subseq_skip, subseq_take.
Qed.

Lemma exec_uplink evs : forall s pre,
  subseq (uplink_blocks s) pre ->
  subseq (uplink_blocks (exec s evs)) (pre ++ captured evs).
Proof.
  induction evs as [|e evs IH]; intros s pre H; simpl.
  - now rewrite app_nil_r.
  - unfold captured in *. simpl. rewrite app_assoc. apply IH.
    eapply subseq_trans; [apply step_uplink|]. now apply subseq_app.
Qed.

(** While the session is healthy no block is given up. *)
Lemma step_uplink_healthy s e :
  Inv s -> healthy s -> stop_request e = false -> send_failure e = false ->
  uplink_blocks (step s e) = uplink_blocks s ++ captured_of e.
Proof.
  unfold healthy. intros HI (Hp & Hr & Hu) He Hf.
  destruct (inv_running HI Hr) as (_ & Hw).
  pose proof (inv_sig_stop HI) as Hs.
  pose proof (inv_queue HI) as Hq.
  unfold uplink_blocks, in_flight.
  destruct e as [r|r| | |r| | | |]; try discriminate;
    try (destruct r; try discriminate);
    unfold_step; cbn; rewrite ?Hp, ?Hr, ?Hw, ?Hq; cbn; cases; (repeat match goal with
            | E : AsyncQueue._queue _ = _ |- _ => rewrite E in *; clear E
            | E : UpSending _ = UpSending _ |- _ => injection E as ->
            end;
     rewrite ?audio_frames_app, ?app_nil_r; cbn [audio_frames app];
     rewrite <- ?app_assoc; cbn [app]; rewrite ?app_nil_r);
    try reflexivity; try congruence.
  all: try (exfalso; destruct Hs as (_ & Hs); [assumption | congruence]).
Qed.

Lemma exec_uplink_healthy evs : forall s,
  Inv s -> healthy s -> no_stop_request evs ->
  existsb send_failure evs = false ->
  uplink_blocks (exec s evs) = uplink_blocks s ++ captured evs.
Proof.
  unfold no_stop_request.
  induction evs as [|e evs IH]; intros s HI Hh He Hf; simpl in *.
  - now rewrite app_nil_r.
  - apply andb_prop in He. destruct He as [He1 He2].
    apply orb_false_elim in Hf. destruct Hf as [Hf1 Hf2].
    assert (He1' : stop_request e = false) by now destruct (stop_request e).
    rewrite IH; auto using step_inv.
    + rewrite step_uplink_healthy by assumption.
      unfold captured. simpl. now rewrite app_assoc.
    + now apply ControllerFacts.step_healthy.
Qed.

(** X11.  The audio frames sent on the connection, followed by the block
    whose send is in progress and the blocks still queued, are a
    subsequence of the blocks the capture callback was given, in
    capture order.  So the frames on the wire are captured blocks, in
    the order of their capture, none of them sent twice. *)
Theorem uplink_in_order url v t d evs :
  let s := clawdbot_connect url v t d evs in
  subseq (audio_frames (wire s) ++ in_flight s
          ++ AsyncQueue._queue (audio_queue s)) (captured evs) /\
  subseq (audio_frames (wire s)) (captured evs) /\
  List.length (audio_frames (wire s)) <= List.length (captured evs).
Proof.
  intros s.
  assert (H : subseq (uplink_blocks s) (captured evs)).
  { apply (exec_uplink evs (start url v t d) []). apply subseq_nil. }
  assert (H' : subseq (audio_frames (wire s)) (captured evs)).
  { eapply subseq_trans; [|exact H]. apply subseq_grow. }
  split; [exact H|]. split; [exact H'|]. now apply subseq_length.
Qed.

(** X12.  In a session that streams, as long as nobody asks it to stop
    and no send fails, no captured block is lost: the frames sent, the
    block being sent and the queued blocks are exactly the captured
    blocks, in capture order. *)
Theorem uplink_lossless url v t d rest
  (Hquiet : no_stop_request rest)
  (Hsends : existsb send_failure rest = false) :
  let s := clawdbot_connect url v t d
             (EvConnect None :: EvConfigSent None :: rest) in
  audio_frames (wire s) ++ in_flight s ++ AsyncQueue._queue (audio_queue s)
  = captured rest.
Proof.
  intros s. unfold s, clawdbot_connect. rewrite !exec_cons.
  set (s2 := step (step (start url v t d) (EvConnect None)) (EvConfigSent None)).
  assert (HI : Inv s2) by (unfold s2; auto using step_inv, start_inv).
  assert (Hh : healthy s2) by (repeat split; discriminate).
  exact (exec_uplink_healthy rest s2 HI Hh Hquiet Hsends).
Qed.

Local Transparent truthy_float dumps config Py.upper.

Lemma uplink_lossless_witness :
  let s := clawdbot_connect localhost "NATF2" EmptyString None
             (EvConnect None :: EvConfigSent None ::
              [EvCapture (block 0); EvCapture (block 1); EvQueueGet;
               EvCapture (block 2); EvSendDone None; EvQueueGet]) in
  audio_frames (wire s) ++ in_flight s ++ AsyncQueue._queue (audio_queue s)
  = [block 0; block 1; block 2].
Proof.
  apply (uplink_lossless localhost "NATF2" EmptyString None
           [EvCapture (block 0); EvCapture (block 1); EvQueueGet;
            EvCapture (block 2); EvSendDone None; EvQueueGet]);
    vm_compute; reflexivity.
Defined.

Local Opaque truthy_float dumps config Py.upper.

End CarryFacts.

(* ================================================================== *)
(** ** Sessions: how they end *)

Module EndingFacts.
Import Py Json Connect Props Props2 StepTactics SessionFacts.
Local Open Scope list_scope.

Local Opaque handle_text truthy_float dumps config Py.upper.

Lemma step_pumps_match s e : pumps_match s -> pumps_match (step s e).
Proof.
  unfold pumps_match, pumps_idle. intros (H1 & H2).
  destruct (ph s) eqn:Hp.
  3: { clear H1. specialize (H2 eq_refl).
       destruct e; unfold_step; cbn; rewrite ?Hp; cbn; cases;
         split; intros; try discriminate; try tauto;
         try (intuition congruence). }
  all: clear H2; destruct H1 as (Hu & Hd); [discriminate|];
    destruct e; unfold_step; cbn; rewrite ?Hp, ?Hu, ?Hd; cbn; cases;
    split; intros; try discriminate; try tauto; try (intuition congruence).
Qed.

Lemma exec_pumps_match evs : forall s, pumps_match s -> pumps_match (exec s evs).
Proof.
  induction evs as [|e evs IH]; intros s H; simpl; auto.
  apply IH, step_pumps_match, H.
Qed.

Lemma reachable_pumps_match url v t d evs :
  pumps_match (clawdbot_connect url v t d evs).
Proof.
  apply exec_pumps_match. split; [intros _; split; reflexivity | discriminate].
Qed.


Local Opaque shown_prompt.

(** A session that returned before the signal handlers were installed
    takes no further step. *)
Lemma step_frozen s e :
  is_returned (ph s) = true -> handlers s = false -> sig_stop s = false ->
  step s e = s.
Proof.
  intros Hp Hh Hs. destruct (ph s) eqn:E; try discriminate.
  destruct e; unfold_step; cbn; rewrite ?E, ?Hh, ?Hs; cbn; cases; auto.
Qed.

Lemma exec_frozen evs s :
  is_returned (ph s) = true -> handlers s = false -> sig_stop s = false ->
  exec s evs = s.
Proof.
  intros Hp Hh Hs. induction evs as [|e evs IH]; simpl; auto.
  now rewrite step_frozen.
Qed.

Lemma start_fields url v t d :
  let s := start url v t d in
  ph s = Connecting /\ running s = false /\ ws s = false /\ closes s = 0 /\
  wire s = [] /\ played s = [] /\ handlers s = false /\ sig_stop s = false /\
  server_url s = url /\ arg_voice s = v /\ text_prompt s = t.
Proof. cbn. repeat split. Qed.

Lemma opened_fields url v t d :
  let s := step (start url v t d) (EvConnect None) in
  ph s = Configuring /\ running s = true /\ ws s = true /\ closes s = 0 /\
  wire s = [] /\ played s = [] /\ handlers s = false /\ sig_stop s = false /\
  server_url s = url /\ arg_voice s = v /\ text_prompt s = t.
Proof. cbn. repeat split. Qed.

(** What the two [except] clauses of [clawdbot_connect] leave. *)
Lemma return_raised_fields s e :
  let s' := return_raised e s in
  wire s' = wire s /\ played s' = played s /\ handlers s' = handlers s /\
  sig_stop s' = sig_stop s /\
  (is_timeout e = false ->
   ph s' = Returned (mkResult error (server_url s) (arg_voice s)
                       (shown_prompt (text_prompt s)) (Some (str_of_exn e))) /\
   running s' = running s /\ ws s' = ws s /\ closes s' = closes s) /\
  (is_timeout e = true ->
   ph s' = Returned (mkResult timeout (server_url s) (arg_voice s)
                       (shown_prompt (text_prompt s)) None) /\
   running s' = false /\
   (running s = false -> ws s' = ws s /\ closes s' = closes s) /\
   (running s = true -> ws s = true ->
    ws s' = false /\ closes s' = S (closes s))).
Proof.
  unfold return_raised, return_timeout, return_error, stop, stop_finish,
    stop_begin.
  destruct (is_timeout e), (running s) eqn:Er, (ws s) eqn:Ew; cbn;
    rewrite ?Er, ?Ew; cbn;
    repeat split; intros; try discriminate; try reflexivity; auto.
Qed.

Lemma raised_frozen s e rest :
  handlers s = false -> sig_stop s = false ->
  exec (return_raised e s) rest = return_raised e s.
Proof.
  intros Hh Hs.
  destruct (return_raised_fields s e) as (_ & _ & Hh' & Hs' & He & Ht).
  apply exec_frozen; [|congruence|congruence].
  destruct (is_timeout e).
  - now destruct (Ht eq_refl) as (-> & _).
  - now destruct (He eq_refl) as (-> & _).
Qed.

(** X14.  When [websockets.connect] raises, [clawdbot_connect] returns
    status [error] with the text of the exception, or, when the
    exception is an [asyncio.TimeoutError], status [timeout] without an
    [error] entry.  Either way nothing was sent, nothing is played,
    there is no connection and [close] is never called, whatever
    happens afterwards. *)
Theorem connect_failure url v t d e rest :
  let s := clawdbot_connect url v t d (EvConnect (Some e) :: rest) in
  returned s
  = Some (if is_timeout e
          then mkResult timeout url v (shown_prompt t) None
          else mkResult error url v (shown_prompt t) (Some (str_of_exn e))) /\
  wire s = [] /\ played s = [] /\
  running s = false /\ ws s = false /\ closes s = 0.
Proof.
  intros s. unfold s, clawdbot_connect. rewrite exec_cons.
  destruct (start_fields url v t d)
    as (Hp & Hr & Hw & Hc & Hwi & Hpl & Hh & Hs & Hu & Hv & Ht).
  set (s0 := start url v t d) in *. clearbody s0.
  assert (E : step s0 (EvConnect (Some e)) = return_raised e s0).
  { unfold step. now rewrite Hp. }
  rewrite E, (raised_frozen s0 e rest Hh Hs).
  destruct (return_raised_fields s0 e) as (Hwi' & Hpl' & _ & _ & He & Hti).
  rewrite Hwi', Hpl', Hwi, Hpl. unfold returned.
  destruct (is_timeout e).
  - destruct (Hti eq_refl) as (-> & -> & Hn & _).
    destruct (Hn Hr) as (-> & ->). rewrite Hu, Hv, Ht. repeat split; auto.
  - destruct (He eq_refl) as (-> & -> & -> & ->). rewrite Hu, Hv, Ht.
    repeat split; auto.
Qed.

(** X15.  When the connection opens and the first send (of the
    configuration) raises, no message is on the wire and the signal
    handlers were not installed, so no later event changes the session.
    For an exception other than [asyncio.TimeoutError] the result has
    status [error] with the text of the exception, and the client is
    left as [connect] left it: running flag set, connection present and
    never closed.  For an [asyncio.TimeoutError] the result has status
    [timeout] without an [error] entry, and the handler's [stop] has
    cleared the flag and closed the connection. *)
Theorem first_send_failure url v t d e rest :
  let s := clawdbot_connect url v t d
             (EvConnect None :: EvConfigSent (Some e) :: rest) in
  wire s = [] /\ handlers s = false /\
  (is_timeout e = false ->
   returned s
   = Some (mkResult error url v (shown_prompt t) (Some (str_of_exn e))) /\
   running s = true /\ ws s = true /\ closes s = 0) /\
  (is_timeout e = true ->
   returned s = Some (mkResult timeout url v (shown_prompt t) None) /\
   running s = false /\ ws s = false /\ closes s = 1).
Proof.
  intros s. unfold s, clawdbot_connect. rewrite !exec_cons.
  destruct (opened_fields url v t d)
    as (Hp & Hr & Hw & Hc & Hwi & Hpl & Hh & Hs & Hu & Hv & Ht).
  set (s1 := step (start url v t d) (EvConnect None)) in *. clearbody s1.
  assert (E : step s1 (EvConfigSent (Some e)) = return_raised e s1).
  { unfold step. now rewrite Hp. }
  rewrite E, (raised_frozen s1 e rest Hh Hs).
  destruct (return_raised_fields s1 e) as (Hwi' & _ & Hh' & _ & He & Hti).
  rewrite Hwi', Hh', Hwi, Hh. unfold returned.
  split; [reflexivity|]. split; [reflexivity|]. split.
  - intros Hn. destruct (He Hn) as (-> & -> & -> & ->).
    rewrite Hu, Hv, Ht, Hr, Hw, Hc. repeat split; auto.
  - intros Hy. destruct (Hti Hy) as (-> & -> & _ & Hn).
    destruct (Hn Hr Hw) as (-> & ->). rewrite Hu, Hv, Ht, Hc.
    repeat split; auto.
Qed.

Lemma first_send_failure_witness :
  let s := clawdbot_connect localhost "NATF2" EmptyString None
             [EvConnect None; EvConfigSent (Some closed_by_peer); EvSignal] in
  running s = true /\ ws s = true /\ closes s = 0.
Proof.
  intros s.
  destruct (first_send_failure localhost "NATF2" EmptyString None
              closed_by_peer [EvSignal]) as (_ & _ & H & _).
  destruct (H eq_refl) as (_ & H'). exact H'.
Defined.

(** *** After the running flag was cleared *)



Lemma step_stopped s e :
  Inv s -> handlers s = true -> running s = false ->
  running (step s e) = false /\
  ((wire (step s e) = wire s /\
    (up (step s e) = up s \/ not_sending (up (step s e)))) \/
   (exists c, up s = UpSending c /\
              wire (step s e) = wire s ++ [Binary c] /\
              not_sending (up (step s e)))).
Proof.
  intros HI Hh Hr.
  assert (Hc : ph s <> Configuring).
  { intros Hp. destruct (inv_configuring HI Hp). congruence. }
  assert (Hn : ph s <> Connecting).
  { intros Hp. destruct (inv_connecting HI Hp) as (_ & ? & _). congruence. }
  destruct e; unfold_step; cbn; rewrite ?Hh, ?Hr; cbn; cases;
    try congruence;
    try (exfalso;
         match goal with
         | E : (_ && _)%bool = true |- _ =>
             rewrite ?Hr, andb_false_r in E; discriminate E
         end);
    (split; [first [reflexivity | exact Hr]|]);
    first [ left; split; [reflexivity|];
            first [ left; first [reflexivity | assumption | symmetry; assumption]
                  | right; first [ exact I
                                 | match goal with
                                   | E : up _ = _ |- _ => rewrite E; exact I
                                   end ] ]
          | right; eexists; split; [reflexivity|];
            split; [reflexivity | exact I] ].
Qed.

Lemma exec_stopped evs : forall s,
  Inv s -> handlers s = true -> running s = false ->
  running (exec s evs) = false /\
  ((wire (exec s evs) = wire s /\
    (up (exec s evs) = up s \/ not_sending (up (exec s evs)))) \/
   (exists c, up s = UpSending c /\
              wire (exec s evs) = wire s ++ [Binary c] /\
              not_sending (up (exec s evs)))).
Proof.
  induction evs as [|e evs IH]; intros s HI Hh Hr; simpl.
  - split; [exact Hr|]. left. auto.
  - destruct (step_stopped s e HI Hh Hr) as (Hr1 & Hw1).
    destruct (IH (step s e) (step_inv s e HI) (step_handlers_mono s e Hh) Hr1)
      as (Hr2 & Hw2).
    split; [exact Hr2|].
    destruct Hw1 as [(Hw1 & Hu1) | (c & Hu & Hw1 & Hu1)].
    + destruct Hw2 as [(Hw2 & Hu2) | (c & Hu & Hw2 & Hu2)].
      * left. split; [congruence|]. destruct Hu2 as [Hu2|Hu2]; auto.
        destruct Hu1 as [Hu1|Hu1]; [left; congruence|].
        right. now rewrite Hu2.
      * destruct Hu1 as [Hu1|Hu1].
        -- right. exists c. repeat split; congruence.
        -- rewrite Hu in Hu1. destruct Hu1.
    + destruct Hw2 as [(Hw2 & Hu2) | (c' & Hu' & Hw2 & Hu2)].
      * right. exists c. split; [exact Hu|]. split; [congruence|].
        destruct Hu2 as [Hu2|Hu2]; [now rewrite Hu2 | exact Hu2].
      * rewrite Hu' in Hu1. destruct Hu1.
Qed.

Lemma step_stopped_down s e :
  Inv s -> handlers s = true -> running s = false ->
  (played (step s e) = played s /\
   (down (step s e) = down s \/ down (step s e) = DownExited)) \/
  (exists b, down s = DownWaiting /\
             played (step s e) = played s ++ [b] /\
             down (step s e) = DownExited).
Proof.
  intros HI Hh Hr.
  assert (Hc : ph s <> Configuring).
  { intros Hp. destruct (inv_configuring HI Hp). congruence. }
  assert (Hn : ph s <> Connecting).
  { intros Hp. destruct (inv_connecting HI Hp) as (_ & ? & _). congruence. }
  destruct e; unfold_step; cbn; rewrite ?Hh, ?Hr; cbn; cases;
    try congruence;
    try (exfalso;
         match goal with
         | E : (_ && _)%bool = true |- _ =>
             rewrite ?Hr, andb_false_r in E; discriminate E
         end);
    first [ left; split; [reflexivity|];
            first [ left; first [reflexivity | assumption | symmetry; assumption]
                  | right; reflexivity ]
          | right; eexists; split; [reflexivity|]; split; reflexivity ].
Qed.

Lemma exec_stopped_down evs : forall s,
  Inv s -> handlers s = true -> running s = false ->
  (played (exec s evs) = played s /\
   (down (exec s evs) = down s \/ down (exec s evs) = DownExited)) \/
  (exists b, down s = DownWaiting /\
             played (exec s evs) = played s ++ [b] /\
             down (exec s evs) = DownExited).
Proof.
  induction evs as [|e evs IH]; intros s HI Hh Hr; simpl.
  - left. auto.
  - destruct (step_stopped s e HI Hh Hr) as (Hr1 & _).
    pose proof (IH (step s e) (step_inv s e HI) (step_handlers_mono s e Hh) Hr1)
      as H2.
    destruct (step_stopped_down s e HI Hh Hr)
      as [(Hp1 & Hd1) | (b & Hd & Hp1 & Hd1)].
    + destruct H2 as [(Hp2 & Hd2) | (b & Hd & Hp2 & Hd2)].
      * left. split; [congruence|].
        destruct Hd2 as [Hd2|Hd2]; [|now right].
        destruct Hd1 as [Hd1|Hd1]; [left | right]; congruence.
      * destruct Hd1 as [Hd1|Hd1]; [|congruence].
        right. exists b. repeat split; congruence.
    + destruct H2 as [(Hp2 & Hd2) | (b' & Hd' & _)]; [|congruence].
      right. exists b. split; [exact Hd|]. split; [congruence|].
      destruct Hd2; congruence.
Qed.

(** X16.  Once the running flag of a session that streamed has been
    cleared it stays cleared, and each pump handles at most what it
    had in hand: the only message still sent is the block whose send
    was in progress at that moment, and at most one more received
    block is played, by a downlink pump that was waiting.  Whatever
    happens afterwards, the wire and the played blocks are as they
    were or are extended by that one block. *)
Theorem traffic_after_stop url v t d evs1 evs2 :
  let s1 := clawdbot_connect url v t d evs1 in
  let s2 := exec s1 evs2 in
  handlers s1 = true -> running s1 = false ->
  running s2 = false /\
  (wire s2 = wire s1 \/
   exists c, up s1 = UpSending c /\ wire s2 = wire s1 ++ [Binary c]) /\
  (played s2 = played s1 \/
   exists b, down s1 = DownWaiting /\ played s2 = played s1 ++ [b]).
Proof.
  intros s1 s2 Hh Hr.
  pose proof (reachable_inv url v t d evs1) as HI.
  destruct (exec_stopped evs2 s1 HI Hh Hr) as (Hr2 & Hw).
  split; [exact Hr2|]. split.
  - destruct Hw as [(Hw & _) | (c & Hu & Hw & _)];
      [left; exact Hw | right; exists c; auto].
  - destruct (exec_stopped_down evs2 s1 HI Hh Hr)
      as [(Hp & _) | (b & Hd & Hp & _)];
      [left; exact Hp | right; exists b; auto].
Qed.

Local Transparent truthy_float dumps config Py.upper.

Lemma traffic_after_stop_witness :
  let s1 := clawdbot_connect localhost "NATF2" EmptyString None
              [EvConnect None; EvConfigSent None; EvCapture silence;
               EvQueueGet; EvSignal] in
  let s2 := exec s1 [EvCapture silence; EvSendDone None; EvQueueGet;
                     EvCapture silence; EvQueueGet] in
  running s2 = false /\
  (wire s2 = wire s1 \/
   exists c, up s1 = UpSending c /\ wire s2 = wire s1 ++ [Binary c]) /\
  (played s2 = played s1 \/
   exists b, down s1 = DownWaiting /\ played s2 = played s1 ++ [b]).
Proof.
  apply (traffic_after_stop localhost "NATF2" EmptyString None
           [EvConnect None; EvConfigSent None; EvCapture silence;
            EvQueueGet; EvSignal]
           [EvCapture silence; EvSendDone None; EvQueueGet;
            EvCapture silence; EvQueueGet]);
    vm_compute; reflexivity.
Defined.

Local Opaque truthy_float dumps config Py.upper.

(** *** A signal *)

Lemma step_signal_streaming s :
  Inv s -> pumps_match s -> ph s = Streaming ->
  winding_down (step s EvSignal) /\ ph (step s EvSignal) = Streaming.
Proof.
  intros HI HP Hp.
  pose proof (step_pumps_match s EvSignal HP) as HP'.
  pose proof (inv_streaming HI Hp) as Hh.
  assert (H : running (step s EvSignal) = false /\
              ph (step s EvSignal) = Streaming).
  { clear HP HP'. unfold_step; cbn; rewrite ?Hh; cbn.
    destruct (running s) eqn:Hr; cbn; [destruct (ws s); cbn|]; auto. }
  destruct H as (H1 & H2).
  split; [|exact H2]. split; [exact H1|]. split; [exact HP' | now left].
Qed.

Lemma winding_down_step s e :
  winding_down s -> stop_request e = false -> winding_down (step s e).
Proof.
  intros (Hr & HP & Hph) He.
  pose proof (step_pumps_match s e HP) as HP'.
  unfold winding_down. split; [|split; [exact HP'|]]; clear HP HP'.
  - destruct Hph as [Hp | (r & Hp & _)];
      destruct e; try discriminate; unfold_step; cbn; rewrite ?Hp, ?Hr; cbn;
      cases; auto.
  - destruct Hph as [Hp | (r & Hp & Hs & Herr)].
    + unfold normal_status, limited.
      destruct e; try discriminate; unfold_step; cbn; rewrite ?Hp, ?Hr; cbn;
        cases;
        first [ left; reflexivity | left; assumption
              | right; eexists; repeat split; reflexivity
              | exfalso;
                match goal with
                | E : negb (running s) = false |- _ =>
                    rewrite Hr in E; discriminate E
                end ].
    + right. exists r. rewrite (step_returned s e r Hp).
      unfold normal_status in *. rewrite step_limited. auto.
Qed.

Lemma winding_down_wakes s r o :
  winding_down s ->
  up (step s EvQueueGet) <> UpWaiting /\
  (up s <> UpWaiting -> up (step s (EvSendDone r)) = UpExited) /\
  (up s = UpExited ->
   up (step s (EvRecv o)) = UpExited /\ down (step s (EvRecv o)) = DownExited).
Proof.
  intros (Hr & (HP1 & HP2) & Hph). unfold pumps_idle in *.
  destruct Hph as [Hp | (res & Hp & _)].
  - clear HP1. specialize (HP2 Hp).
    split; [|split]; intros;
      unfold_step; cbn; rewrite ?Hp, ?Hr; cbn; cases;
      try discriminate; try congruence; try tauto;
      try (split; congruence);
      try (exfalso;
           match goal with
           | E : (_ && _)%bool = true |- _ =>
               rewrite ?Hr, andb_false_r in E; discriminate E
           end).
  - destruct HP1 as (Hu & Hd); [congruence|].
    split; [|split]; intros;
      unfold_step; cbn; rewrite ?Hp, ?Hu, ?Hd; cbn; auto; discriminate.
Qed.


Local Transparent truthy_float dumps config Py.upper.


Local Opaque truthy_float dumps config Py.upper.

End EndingFacts.

(* ================================================================== *)
(** ** The three scripts agree on the presets *)

Module PresetFacts.
Import Py Json VoiceBridge Connect Props Props2 StepTactics SessionFacts
       VoiceBridgeFacts VoiceLookupFacts.
Local Open Scope list_scope.

Lemma dict_mem_keys {V} (d : dict V) x : dict_mem d x = set_mem (keys d) x.
Proof.
  unfold dict_mem, set_mem.
  induction d as [|[k v] d IH]; simpl; [reflexivity|].
  destruct (String.eqb x k); simpl; auto.
Qed.

Lemma names_are_not_presets :
  forallb (fun n => negb (set_mem Connect.VOICE_PRESETS (Py.upper n)))
          (keys ELEVENLABS_TO_PERSONAPLEX) = true.
Proof. vm_compute. reflexivity. Qed.

Lemma presets_upper :
  forallb (fun p => String.eqb (Py.upper p) p) (keys PRESET_INFO) = true.
Proof. vm_compute. reflexivity. Qed.

Lemma set_mem_In l x : set_mem l x = true -> In x l.
Proof.
  unfold set_mem. intros H. apply existsb_exists in H.
  destruct H as (y & Hy & E). apply String.eqb_eq in E. now subst.
Qed.

Lemma In_set_mem l x : In x l -> set_mem l x = true.
Proof.
  unfold set_mem. intros H. apply existsb_exists. exists x.
  split; [exact H | apply String.eqb_refl].
Qed.

Lemma handle_text_no_warning m r :
  handle_text m = inr r -> is_voice_warning r = false.
Proof.
  unfold handle_text. intros H.
  repeat match type of H with
         | context [match ?x with _ => _ end] => destruct x
         end; try discriminate; injection H as <-; reflexivity.
Qed.

Local Opaque handle_text truthy_float dumps config Py.upper.

(** No step logs the unknown-voice warning. *)
Lemma step_warnings s e :
  filter is_voice_warning (log (step s e)) = filter is_voice_warning (log s).
Proof.
  destruct e; unfold_step; cbn; cases;
    rewrite ?filter_app; cbn; rewrite ?app_nil_r; try reflexivity;
    match goal with
    | E : handle_text _ = inr _ |- _ =>
        rewrite (handle_text_no_warning _ _ E), app_nil_r; reflexivity
    end.
Qed.

Lemma exec_warnings evs : forall s,
  filter is_voice_warning (log (exec s evs)) = filter is_voice_warning (log s).
Proof.
  induction evs as [|e evs IH]; intros s; simpl; auto.
  now rewrite IH, step_warnings.
Qed.

Lemma start_warnings url v t d :
  filter is_voice_warning (log (start url v t d))
  = if set_mem Connect.VOICE_PRESETS (Py.upper v) then []
    else [WarnUnknownVoice (Py.upper v)].
Proof.
  unfold start. cbn [log]. rewrite filter_app.
  destruct (set_mem Connect.VOICE_PRESETS (Py.upper v)); reflexivity.
Qed.

(** X18.  [connect.py], [offline_eval.py] and [voice_bridge.py] know
    the same presets.  A preset that the bridge resolved from an ASCII
    name is accepted by the client without the unknown-voice warning,
    in every session.  The client itself resolves no ElevenLabs name:
    given one, it logs exactly one warning, for the upper-cased name,
    and goes on. *)
Theorem presets_agree (name : string) (Hascii : is_ascii name = true) :
  (forall x, set_mem Connect.VOICE_PRESETS x = dict_mem PRESET_INFO x /\
             set_mem OfflineEval.VOICE_PRESETS x = dict_mem PRESET_INFO x) /\
  (forall p url t d evs,
     get_personaplex_voice name = Some p ->
     filter is_voice_warning (log (clawdbot_connect url p t d evs)) = []) /\
  (forall url t d evs,
     In name (keys ELEVENLABS_TO_PERSONAPLEX) ->
     filter is_voice_warning (log (clawdbot_connect url name t d evs))
     = [WarnUnknownVoice (Py.upper name)]).
Proof.
  split; [|split].
  - intros x. rewrite dict_mem_keys. split; reflexivity.
  - intros p url t d evs H.
    pose proof (resolved_is_preset name p H) as Hin.
    unfold clawdbot_connect. rewrite exec_warnings, start_warnings.
    pose proof presets_upper as F. rewrite forallb_forall in F.
    assert (Hu : Py.upper p = p) by (apply String.eqb_eq, F, Hin).
    rewrite Hu.
    change Connect.VOICE_PRESETS with (keys PRESET_INFO).
    now rewrite (In_set_mem _ _ Hin).
  - intros url t d evs Hin.
    unfold clawdbot_connect. rewrite exec_warnings, start_warnings.
    pose proof names_are_not_presets as F. rewrite forallb_forall in F.
    specialize (F name Hin). apply negb_true_iff in F. now rewrite F.
Qed.

Lemma presets_agree_witness :
  filter is_voice_warning
    (log (clawdbot_connect localhost "NATF2" EmptyString None
            [EvConnect None; EvConfigSent None])) = [].
Proof.
  apply (proj1 (proj2 (presets_agree "Rachel" eq_refl))
           "NATF2" localhost EmptyString None
           [EvConnect None; EvConfigSent None]).
  reflexivity.
Defined.

(** *** offline_eval.py: resolve_voice *)

Lemma aliases_are_presets :
  forallb (fun kv => set_mem OfflineEval.VOICE_PRESETS (snd kv)
                     && opt_eqb (dict_get ELEVENLABS_TO_PERSONAPLEX (fst kv))
                                (Some (snd kv)))
          OfflineEval.VOICE_ALIASES = true.
Proof. vm_compute. reflexivity. Qed.

Lemma alias_facts l p :
  dict_get OfflineEval.VOICE_ALIASES l = Some p ->
  In p (keys PRESET_INFO) /\
  dict_get ELEVENLABS_TO_PERSONAPLEX l = Some p.
Proof.
  intros H. apply dict_get_In_pair in H.
  pose proof aliases_are_presets as F. rewrite forallb_forall in F.
  specialize (F (l, p) H). cbn [fst snd] in F.
  apply andb_prop in F. destruct F as [F1 F2].
  split; [now apply set_mem_In in F1 | now apply opt_eqb_eq].
Qed.

Lemma preset_resolves p :
  In p (keys PRESET_INFO) -> OfflineEval.resolve_voice_log p = (p, []).
Proof.
  intros Hin. unfold OfflineEval.resolve_voice_log.
  pose proof presets_upper as F. rewrite forallb_forall in F.
  rewrite (proj1 (String.eqb_eq _ _) (F p Hin)).
  change OfflineEval.VOICE_PRESETS with (keys PRESET_INFO).
  now rewrite (In_set_mem _ _ Hin).
Qed.

(** X19.  [resolve_voice] on an ASCII name.  Either it logs no warning
    and returns a preset, the same one the voice bridge finds for the
    name; or it logs the unknown-voice warning and returns the name
    unchanged, and the name is no preset.  Resolving the result again
    changes nothing. *)
Theorem resolve_voice_result (voice_name : string)
  (Hascii : is_ascii voice_name = true) :
  let r := OfflineEval.resolve_voice voice_name in
  let l := snd (OfflineEval.resolve_voice_log voice_name) in
  ((set_mem OfflineEval.VOICE_PRESETS r = true /\
    get_personaplex_voice voice_name = Some r /\
    ~ In (OfflineEval.WarnUnknownVoice voice_name) l) \/
   (r = voice_name /\ l = [OfflineEval.WarnUnknownVoice voice_name] /\
    set_mem OfflineEval.VOICE_PRESETS voice_name = false)) /\
  OfflineEval.resolve_voice r = r.
Proof.
  intros r l. unfold r, l, OfflineEval.resolve_voice. clear r l.
  destruct (set_mem (keys PRESET_INFO) (Py.upper voice_name)) eqn:E.
  - assert (Hlog : OfflineEval.resolve_voice_log voice_name
                   = (Py.upper voice_name, [])).
    { unfold OfflineEval.resolve_voice_log.
      change OfflineEval.VOICE_PRESETS with (keys PRESET_INFO). now rewrite E. }
    pose proof (set_mem_In _ _ E) as Hin.
    rewrite Hlog. cbn [fst snd]. rewrite (preset_resolves _ Hin).
    split; [|reflexivity].
    left. split; [exact E|]. split; [|intros []].
    unfold get_personaplex_voice. now rewrite dict_mem_keys, E.
  - destruct (dict_get OfflineEval.VOICE_ALIASES (Py.lower voice_name))
      as [p|] eqn:Ea.
    + assert (Hlog : OfflineEval.resolve_voice_log voice_name
                     = (p, [OfflineEval.InfoResolvedAlias voice_name p])).
      { unfold OfflineEval.resolve_voice_log.
        change OfflineEval.VOICE_PRESETS with (keys PRESET_INFO).
        now rewrite E, Ea. }
      destruct (alias_facts _ _ Ea) as (Hin & Hel).
      rewrite Hlog. cbn [fst snd]. rewrite (preset_resolves _ Hin).
      split; [|reflexivity].
      left. split; [now apply In_set_mem|]. split.
      * unfold get_personaplex_voice. now rewrite dict_mem_keys, E.
      * intros [H|[]]. discriminate H.
    + assert (Hlog : OfflineEval.resolve_voice_log voice_name
                     = (voice_name, [OfflineEval.WarnUnknownVoice voice_name])).
      { unfold OfflineEval.resolve_voice_log.
        change OfflineEval.VOICE_PRESETS with (keys PRESET_INFO).
        now rewrite E, Ea. }
      rewrite Hlog. cbn [fst snd]. rewrite Hlog.
      split; [|reflexivity].
      right. split; [reflexivity|]. split; [reflexivity|].
      change OfflineEval.VOICE_PRESETS with (keys PRESET_INFO).
      destruct (set_mem (keys PRESET_INFO) voice_name) eqn:En; [|reflexivity].
      pose proof (set_mem_In _ _ En) as Hin.
      pose proof presets_upper as F. rewrite forallb_forall in F.
      rewrite (proj1 (String.eqb_eq _ _) (F _ Hin)) in E. congruence.
Qed.

Lemma resolve_voice_result_witness :
  OfflineEval.resolve_voice (OfflineEval.resolve_voice "Rachel")
  = OfflineEval.resolve_voice "Rachel".
Proof.
  apply (proj2 (resolve_voice_result "Rachel" eq_refl)).
Defined.

(** The bridge knows ElevenLabs names that [resolve_voice] does not. *)
Example bella_is_not_an_alias :
  get_personaplex_voice "bella" = Some "NATF3" /\
  OfflineEval.resolve_voice_log "bella"
  = ("bella", [OfflineEval.WarnUnknownVoice "bella"]).
Proof. vm_compute. auto. Qed.

End PresetFacts.

(* ================================================================== *)
(** ** offline_eval.py: the result of a run *)

Module OfflineFacts.
Import Py Json OfflineEval VoiceLookupFacts.
Local Open Scope list_scope.

Section Process.
Variable executable : string.
Variable strip : string -> string.
Variable with_suffix : string -> string -> string.
Variable stem : string -> string.
Variable joinpath : string -> string -> string.

Lemma process_single_facts (hf_token : bool)
  (run : list string -> run_outcome)
  (input_wav output_wav voice text_prompt : string)
  (seed : Z) (cpu_offload : bool) (output_text : option string) :
  let r := process_single executable strip with_suffix hf_token run
             input_wav output_wav voice text_prompt seed cpu_offload
             output_text in
  let cmd := command executable (resolve_voice voice) input_wav output_wav
               text_prompt seed cpu_offload
               (text_output_path with_suffix output_wav output_text) in
  (exists st, dict_get r "status" = Some (RStr st) /\
              (st = "success" \/ st = "error" \/ st = "timeout")%string) /\
  (dict_mem r "error" = true <-> is_success r = false) /\
  dict_get r "input" = Some (RStr input_wav) /\
  (is_success r = true <->
   hf_token = true /\
   exists proc elapsed text,
     run cmd = Completed proc elapsed text true /\ returncode proc = 0%Z /\
     forall e, text <> TextFileRaises e) /\
  (hf_token = false ->
   r = [ ("status", RStr "error"); ("error", RStr "HF_TOKEN not set");
         ("input", RStr input_wav) ]%string).
Proof.
  intros r cmd.
  assert (Hr : r = process_single executable strip with_suffix hf_token run
                     input_wav output_wav voice text_prompt seed cpu_offload
                     output_text) by reflexivity.
  clearbody r. unfold process_single in Hr. fold cmd in Hr.
  destruct hf_token; cbn [negb] in Hr.
  2: { subst r. cbn. split; [eexists; split; [reflexivity|auto]|].
       split; [split; reflexivity|]. split; [reflexivity|].
       split; [|reflexivity].
       split; [discriminate | intros (H & _); discriminate]. }
  assert (Hs : is_success r = true <->
               exists proc elapsed text,
                 run cmd = Completed proc elapsed text true /\
                 returncode proc = 0%Z /\
                 forall e, text <> TextFileRaises e).
  { destruct (run cmd) as [[rc out err] elapsed text wav| | |msg];
      cbn [returncode stdout stderr] in Hr.
    - destruct (rc =? 0)%Z eqn:Erc;
        [apply Z.eqb_eq in Erc; subst rc | apply Z.eqb_neq in Erc];
        destruct text as [|content [v|]|[|msg]]; destruct wav;
        destruct (truthy (strip out)); subst r; unfold set_error; cbn;
        (split;
         [ first [ discriminate
                 | intros _; do 3 eexists; split; [reflexivity|];
                   split; [reflexivity | intros e; discriminate] ]
         | first [ reflexivity
                 | intros (p & e & t & H & H0 & H1); discriminate H
                 | intros (p & e & t & H & H0 & H1); injection H; intros;
                   subst; cbn in *; congruence
                 | intros (p & e & t & H & H0 & H1); injection H; intros;
                   subst; exfalso; eapply H1; reflexivity ] ]).
    - subst r. unfold set_error; cbn.
      split; [discriminate | intros (p & e & t & H & _); discriminate H].
    - subst r. unfold set_error; cbn.
      split; [discriminate | intros (p & e & t & H & _); discriminate H].
    - subst r. unfold set_error; cbn.
      split; [discriminate | intros (p & e & t & H & _); discriminate H]. }
  assert (Hk : (exists st, dict_get r "status" = Some (RStr st) /\
                  (st = "success" \/ st = "error" \/ st = "timeout")%string) /\
               (dict_mem r "error" = true <-> is_success r = false) /\
               dict_get r "input" = Some (RStr input_wav)).
  { clear Hs.
    destruct (run cmd) as [[rc out err] elapsed text wav| | |msg];
      cbn [returncode stdout stderr] in Hr;
      [ destruct (rc =? 0)%Z; destruct text as [|content [v|]|[|msg]];
        destruct wav; destruct (truthy (strip out)) | | | ];
      subst r; unfold set_error; cbn;
      (split; [eexists; split; [reflexivity|auto]|]);
      (split; [split; first [reflexivity | discriminate] | reflexivity]). }
  destruct Hk as (H1 & H2 & H3).
  split; [exact H1|]. split; [exact H2|]. split; [exact H3|].
  split; [|discriminate].
  split.
  - intros H. split; [reflexivity | now apply Hs].
  - intros (_ & H). now apply Hs.
Qed.

(** X20.  The [dict] returned by [process_single].  Its status is
    [success], [error] or [timeout], never the initial [pending]; it
    has an [error] entry exactly when the status is not [success]; its
    [input] entry is the input path; and the status is [success]
    exactly when [HF_TOKEN] is set, the command ran and returned exit
    code 0, reading the transcription file (when there is one) raised
    nothing but [JSONDecodeError], and the output WAV exists
    afterwards.  Without [HF_TOKEN] the result does not depend on what
    running the command would do. *)
Theorem process_single_status (hf_token : bool)
  (run : list string -> run_outcome)
  (input_wav output_wav voice text_prompt : string)
  (seed : Z) (cpu_offload : bool) (output_text : option string) :
  let r := process_single executable strip with_suffix hf_token run
             input_wav output_wav voice text_prompt seed cpu_offload
             output_text in
  let cmd := command executable (resolve_voice voice) input_wav output_wav
               text_prompt seed cpu_offload
               (text_output_path with_suffix output_wav output_text) in
  (exists st, dict_get r "status" = Some (RStr st) /\
              (st = "success" \/ st = "error" \/ st = "timeout")%string) /\
  (dict_mem r "error" = true <-> is_success r = false) /\
  dict_get r "input" = Some (RStr input_wav) /\
  (is_success r = true <->
   hf_token = true /\
   exists proc elapsed text,
     run cmd = Completed proc elapsed text true /\ returncode proc = 0%Z /\
     forall e, text <> TextFileRaises e) /\
  (hf_token = false ->
   r = [ ("status", RStr "error"); ("error", RStr "HF_TOKEN not set");
         ("input", RStr input_wav) ]%string).
Proof.
  exact (process_single_facts hf_token run input_wav output_wav voice
           text_prompt seed cpu_offload output_text).
Qed.

Lemma batch_loop_nth hf_token run output_dir voice text_prompt seed cpu_offload :
  forall wav_files i0,
    List.length (batch_loop executable strip with_suffix stem joinpath
                   hf_token run i0 wav_files output_dir voice text_prompt
                   seed cpu_offload) = List.length wav_files /\
    forall i f,
      nth_error wav_files i = Some f ->
      nth_error (batch_loop executable strip with_suffix stem joinpath
                   hf_token run i0 wav_files output_dir voice text_prompt
                   seed cpu_offload) i
      = Some (process_single executable strip with_suffix hf_token
                (run (i0 + i)) f
                (joinpath output_dir ("output_" ++ stem f ++ ".wav"))
                voice text_prompt seed cpu_offload
                (Some (joinpath output_dir ("output_" ++ stem f ++ ".json")))).
Proof.
  induction wav_files as [|w rest IH]; intros i0; simpl.
  - split; [reflexivity|]. intros [|i] f H; discriminate.
  - destruct (IH (S i0)) as (IH1 & IH2). split; [now rewrite IH1|].
    intros [|i] f H; simpl in *.
    + injection H as ->. now rewrite Nat.add_0_r.
    + rewrite (IH2 i f H). now rewrite Nat.add_succ_r.
Qed.

Lemma process_batch_loop hf_token run wav_files output_dir voice text_prompt
      seed cpu_offload :
  process_batch executable strip with_suffix stem joinpath hf_token run
    wav_files output_dir voice text_prompt seed cpu_offload
  = batch_loop executable strip with_suffix stem joinpath hf_token run 0
      wav_files output_dir voice text_prompt seed cpu_offload.
Proof. destruct wav_files; reflexivity. Qed.

Lemma successes_none results :
  (forall r, In r results -> is_success r = false) -> successes results = 0.
Proof.
  unfold successes. induction results as [|r rs IH]; intros H; simpl; auto.
  rewrite (H r) by (left; reflexivity). apply IH. intros x Hx. apply H. now right.
Qed.

(** X21.  [process_batch] returns one result per WAV file, in the
    order of the files: the result at position [i] is that of
    [process_single] on file [i], with output paths [output_<stem>.wav]
    and [output_<stem>.json] in the output directory, so its [input]
    entry is that file.  No file gives no result.  A failure does not
    stop the batch; without [HF_TOKEN] every file gets the
    [HF_TOKEN not set] error result and nothing succeeds. *)
Theorem process_batch_results (hf_token : bool)
  (run : nat -> list string -> run_outcome)
  (wav_files : list string) (output_dir voice text_prompt : string)
  (seed : Z) (cpu_offload : bool) :
  let results := process_batch executable strip with_suffix stem joinpath
                   hf_token run wav_files output_dir voice text_prompt seed
                   cpu_offload in
  List.length results = List.length wav_files /\
  (wav_files = [] -> results = []) /\
  (forall i f,
     nth_error wav_files i = Some f ->
     exists r,
       nth_error results i = Some r /\
       r = process_single executable strip with_suffix hf_token (run i) f
             (joinpath output_dir ("output_" ++ stem f ++ ".wav"))
             voice text_prompt seed cpu_offload
             (Some (joinpath output_dir ("output_" ++ stem f ++ ".json"))) /\
       dict_get r "input" = Some (RStr f)) /\
  successes results <= List.length wav_files /\
  (hf_token = false ->
   successes results = 0 /\
   forall r, In r results ->
             dict_get r "error" = Some (RStr "HF_TOKEN not set")).
Proof.
  intros results. unfold results. rewrite process_batch_loop.
  destruct (batch_loop_nth hf_token run output_dir voice text_prompt seed
              cpu_offload wav_files 0) as (Hlen & Hnth).
  split; [exact Hlen|].
  split; [intros ->; reflexivity|].
  split.
  { intros i f H. eexists. split; [apply (Hnth i f H)|].
    split; [reflexivity|].
    apply (process_single_facts hf_token (run i) f). }
  split.
  { rewrite <- Hlen. unfold successes. apply filter_length_le. }
  intros ->.
  assert (Hall : forall r,
             In r (batch_loop executable strip with_suffix stem joinpath
                     false run 0 wav_files output_dir voice text_prompt seed
                     cpu_offload) ->
             exists f, r = [ ("status", RStr "error");
                             ("error", RStr "HF_TOKEN not set");
                             ("input", RStr f) ]%string).
  { intros r Hin. apply In_nth_error in Hin. destruct Hin as (i & Hi).
    destruct (nth_error wav_files i) as [f|] eqn:Ef.
    - rewrite (Hnth i f Ef) in Hi. injection Hi as <-. exists f. reflexivity.
    - apply nth_error_None in Ef. rewrite <- Hlen in Ef.
      apply nth_error_None in Ef. congruence. }
  split.
  - apply successes_none. intros r Hin.
    destruct (Hall r Hin) as (f & ->). reflexivity.
  - intros r Hin. destruct (Hall r Hin) as (f & ->). reflexivity.
Qed.

End Process.

(** A run in which the command succeeds and leaves both files. *)
Lemma process_single_status_witness :
  let run := fun _ : list string =>
    Completed (mkProc 0 EmptyString EmptyString) (QArith_base.Qmake 3 1)
              (TextFile "[]" (Some (JList []))) true in
  is_success
    (process_single "python3" (fun s => s) (fun p _ => p) true run
       "a.wav" "out.wav" "rachel" EmptyString 42424242 false None) = true.
Proof.
  intros run.
  destruct (process_single_status "python3" (fun s => s) (fun p _ => p)
              true run "a.wav" "out.wav" "rachel" EmptyString 42424242 false
              None) as (_ & _ & _ & H & _).
  apply H. split; [reflexivity|].
  exists (mkProc 0 EmptyString EmptyString), (QArith_base.Qmake 3 1),
         (TextFile "[]" (Some (JList []))).
  split; [reflexivity|]. split; [reflexivity | intros e; discriminate].
Defined.

Lemma process_batch_results_witness :
  successes
    (process_batch "python3" (fun s => s) (fun p _ => p) (fun p => p)
       (fun d n => (d ++ "/" ++ n)%string) false
       (fun _ _ => TimeoutExpired) ["a.wav"; "b.wav"] "out" "rachel"
       EmptyString 42424242 false) = 0.
Proof.
  apply (process_batch_results "python3" (fun s => s) (fun p _ => p)
           (fun p => p) (fun d n => (d ++ "/" ++ n)%string) false
           (fun _ _ => TimeoutExpired) ["a.wav"; "b.wav"] "out" "rachel"
           EmptyString 42424242 false).
  reflexivity.
Defined.

End OfflineFacts.
